(** * The opencopilot node agent: reconciliation and service lifecycle

    A shallow embedding of [agent.go]: the configuration handler, the
    desired-versus-actual reconciliation, container start and stop, and
    the configuration push.  The container runtime, the key-value store,
    the tree decoder and the manager RPC are external collaborators: the
    agent is verified against an arbitrary implementation of them (the
    class [Runtime]), and a small simulated node serves for the concrete
    scenarios. *)

From stdpp Require Import base strings list gmap pretty.

Open Scope string_scope.
Open Scope list_scope.

(** ** Go values *)

(** A Go [error] is represented by its message; a nil error is [None]. *)
Definition error := string.

(** [type Service string] and [type Services []Service]. *)
Definition Service := string.
Definition Services := list Service.

(** The fields of [dockerTypes.Port] and [dockerTypes.Container] that the
    agent reads; ports are [uint16] values. *)
Record Port := { PrivatePort : Z; PublicPort : Z }.

Record Container := {
  ID : string;
  Names : list string;
  Image : string;
  Labels : gmap string string;
  Ports : list Port
}.

(** [container.Config] and [container.HostConfig], as far as
    [startService] fills them in. *)
Record ContainerConfig := {
  cfgImage : string;
  cfgLabels : gmap string string;
  cfgEnv : list string
}.

Record HostConfig := {
  AutoRemove : bool;
  Privileged : bool;
  Binds : list string;
  PublishAllPorts : bool
}.

(** [filters.Args]: the (key, value) pairs handed to [filters.NewArgs]. *)
Definition Filters := list (string * string).

(** [consul.KVPairs]: keys with their payloads. *)
Definition KVPairs := list (string * string).

#[local] Set Warnings "-register-all".

(** The nested document [map[string]interface{}] built by the decoder:
    leaves are strings, inner nodes are maps (kept in iteration order). *)
Inductive JSON :=
| JStr (s : string)
| JObj (fields : list (string * JSON)).

Definition Document := list (string * JSON).

(** [jsonparser.ValueType]. *)
Inductive ValueType :=
| NotExist | String | Number | Object | Array | Boolean | Null | Unknown.

Definition ValueType_eqb (a b : ValueType) : bool :=
  match a, b with
  | NotExist, NotExist | String, String | Number, Number | Object, Object
  | Array, Array | Boolean, Boolean | Null, Null | Unknown, Unknown => true
  | _, _ => false
  end.

(** ** Observable behaviour *)

(** The three per-service entry points of the lifecycle manager and the
    configurator. *)
Inductive Call :=
| StartService (s : Service)
| StopService (s : Service)
| ConfigureService (s : Service).

(** What a run does to the outside world, in order.  [EvInvoke] is a ghost
    event emitted on entry of [startService], [stopService] and
    [configureService]; every other event is a call to a collaborator or
    a line written to the log. *)
Inductive Event :=
| EvInvoke (c : Call)
| EvLog (msg : string)
| EvContainerList (args : Filters)
| EvImagePull (image : string)
| EvReadAll (image : string)
| EvContainerCreate (cfg : ContainerConfig) (host : HostConfig) (name : string)
| EvContainerStart (id : string)
| EvContainerStop (id : string)
| EvKVList (prefix : string)
| EvDial (target : string)
| EvConfigure (target : string) (config : string).

(** How a Go function ends: it returns, it panics ([log.Panic]), or the
    process exits ([log.Fatal]). *)
Inductive Outcome (A : Type) :=
| Returned (a : A)
| Panicked (e : error)
| Exited (e : error).
Arguments Returned {A} a.
Arguments Panicked {A} e.
Arguments Exited {A} e.

(** ** External collaborators *)

(** The contract surface the agent needs, over an arbitrary state [Env]
    of the outside world.  A Go call returning [(v, err)] returns the pair
    here. *)
Class Runtime (Env : Type) := {
  docker_NewEnvClient : Env -> option error;
  docker_ContainerList : Filters -> Env -> (list Container * option error) * Env;
  docker_ImagePull : string -> Env -> option error * Env;
  ioutil_ReadAll : string -> Env -> option error * Env;
  docker_ContainerCreate :
    ContainerConfig -> HostConfig -> string -> Env -> (string * option error) * Env;
  docker_ContainerStart : string -> Env -> option error * Env;
  docker_ContainerStop : string -> Env -> option error * Env;
  consul_NewClient : Env -> option error;
  consul_KVList : string -> Env -> (KVPairs * option error) * Env;
  ConsulKVsToJSON : KVPairs -> Document * option error;
  json_raw : JSON -> string;
  grpc_Dial : string -> Env -> option error * Env;
  manager_Configure : string -> string -> Env -> option error * Env
}.

(** The process configuration surface: [InstanceID] and [ConfigDir] are
    package-level values fixed at start-up. *)
Class Config := {
  InstanceID : string;
  ConfigDir : string
}.

(** ** The monad of agent code *)

Section Monad.
Context {Env : Type}.

(** Package-level mutable state next to the outside world. *)
Record State := {
  env : Env;
  HandlingServices : bool
}.

Record Result (A : Type) := {
  outcome : Outcome A;
  final : State;
  events : list Event
}.
Arguments outcome {A} _.
Arguments final {A} _.
Arguments events {A} _.

Definition M (A : Type) : Type := State -> Result A.

Definition ret {A} (a : A) : M A :=
  fun s => {| outcome := Returned a; final := s; events := [] |}.

(** A run that follows the events [evs]. *)
Definition after {A} (evs : list Event) (r : Result A) : Result A :=
  {| outcome := outcome r; final := final r; events := evs ++ events r |}.

Definition bind {A B} (m : M A) (f : A -> M B) : M B :=
  fun s =>
    let r := m s in
    match outcome r with
    | Returned a => after (events r) (f a (final r))
    | Panicked e => {| outcome := Panicked e; final := final r; events := events r |}
    | Exited e => {| outcome := Exited e; final := final r; events := events r |}
    end.

(** A call to a collaborator that may change the outside world. *)
Definition call {A} (ev : Event) (op : Env -> A * Env) : M A :=
  fun s =>
    let '(a, e') := op (env s) in
    {| outcome := Returned a;
       final := {| env := e'; HandlingServices := HandlingServices s |};
       events := [ev] |}.

(** A call that only reads it (client construction). *)
Definition ask {A} (q : Env -> A) : M A :=
  fun s => {| outcome := Returned (q (env s)); final := s; events := [] |}.

Definition emit (ev : Event) : M unit :=
  fun s => {| outcome := Returned tt; final := s; events := [ev] |}.

Definition set_HandlingServices (b : bool) : M unit :=
  fun s => {| outcome := Returned tt;
              final := {| env := env s; HandlingServices := b |};
              events := [] |}.

(** [log.Println], [log.Panic] and [log.Fatal]. *)
Definition log_Println (msg : string) : M unit := emit (EvLog msg).

Definition log_Panic {A} (msg : string) : M A :=
  fun s => {| outcome := Panicked msg; final := s; events := [EvLog msg] |}.

(** [log.Panicln]: the same line in the log, and a panic value that ends
    with the newline [fmt.Sprintln] adds. *)
Definition newline : string := String.String (Ascii.ascii_of_nat 10) EmptyString.

Definition log_Panicln {A} (msg : string) : M A :=
  fun s => {| outcome := Panicked (msg +:+ newline); final := s;
              events := [EvLog msg] |}.

Definition log_Fatal {A} (msg : string) : M A :=
  fun s => {| outcome := Exited msg; final := s; events := [EvLog msg] |}.

(** A Go panic that is not raised through the logger. *)
Definition panic {A} (msg : string) : M A :=
  fun s => {| outcome := Panicked msg; final := s; events := [] |}.
End Monad.

Arguments State : clear implicits.
Arguments Result : clear implicits.
Arguments M : clear implicits.
Arguments outcome {Env A} _.
Arguments final {Env A} _.
Arguments events {Env A} _.
Arguments after {Env A} evs r.

Notation "'let*' x ':=' c1 'in' c2" := (bind c1 (fun x => c2))
  (at level 10, x pattern, c1 at level 100, c2 at level 200).
Notation "c1 ;; c2" := (bind c1 (fun _ => c2))
  (at level 100, c2 at level 200, right associativity).

(** ** Documents and [jsonparser.Get] *)

(** [m[k]] on a Go map. *)
Definition lookupField (m : Document) (k : string) : option JSON :=
  snd <$> find (fun kv => String.eqb (fst kv) k) m.

(** [v.(map[string]interface{})]; [None] stands for the run-time panic of
    a failed type assertion (also on a missing entry, which is nil). *)
Definition typeAssertMap (v : option JSON) : option Document :=
  match v with
  | Some (JObj fields) => Some fields
  | _ => None
  end.

Fixpoint getPath (v : JSON) (keys : list string) : option JSON :=
  match keys with
  | [] => Some v
  | k :: ks =>
      match v with
      | JObj fields =>
          match lookupField fields k with
          | Some v' => getPath v' ks
          | None => None
          end
      | JStr _ => None
      end
  end.

Definition typeOf (v : JSON) : ValueType :=
  match v with
  | JStr _ => String
  | JObj _ => Object
  end.

(** [jsonparser.Get(json.Marshal(m), keys...)]: the value found at the key
    path with its type, or [NotExist] together with the library's
    key-path error.  The document is encoded and searched again in the
    source; the encoding of a document of strings and maps cannot fail, so
    the two steps are a path lookup.  The offset result is dropped. *)
Definition jsonparser_Get (m : Document) (keys : list string)
  : option JSON * ValueType * option error :=
  match getPath (JObj m) keys with
  | Some v => (Some v, typeOf v, None)
  | None => (None, NotExist, Some "Key path not found")
  end.

(** ** The agent *)

Definition managedLabel : string := "com.opencopilot.managed".
Definition serviceLabel : string := "com.opencopilot.service-manager".

(** The deterministic container name of a service. *)
Definition containerName (service : Service) : string :=
  "com.opencopilot.service-manager." +:+ service.

Section Agent.
Context {Env : Type} `{!Runtime Env} `{!Config}.

(** A [for ... range] loop without [break] or [return]. *)
Fixpoint forEach {A} (l : list A) (body : A -> M Env unit) : M Env unit :=
  match l with
  | [] => ret tt
  | x :: rest => body x ;; forEach rest body
  end.

(** Body of the loop of [getLocalServices]: a container without the
    service-manager label is skipped ([continue]). *)
Definition collectService (localServices : Services) (container : Container)
  : Services :=
  match Labels container !! serviceLabel with
  | None => localServices
  | Some serviceName => localServices ++ [serviceName]
  end.

Definition getLocalServices : M Env (Services * option error) :=
  let* err := ask docker_NewEnvClient in
  match err with
  | Some e => ret ([], Some e)
  | None =>
      let args := [("label", managedLabel)] in
      let* (containers, err) :=
        call (EvContainerList args) (docker_ContainerList args) in
      match err with
      | Some e => log_Panic e
      | None => ret (foldl collectService [] containers, None)
      end
  end.

(** The static registry: the [switch] of [startService]. *)
Definition containerConfigFor (service : Service) : option ContainerConfig :=
  if String.eqb service "LB" then
    Some {| cfgImage := "quay.io/opencopilot/haproxy-manager";
            cfgLabels := <[managedLabel := ""]> (<[serviceLabel := service]> ∅);
            cfgEnv := [] |}
  else None.

Definition startService (service : Service) : M Env (option error) :=
  emit (EvInvoke (StartService service)) ;;
  log_Println ("adding service: " +:+ service) ;;
  let* err := ask docker_NewEnvClient in
  match err with
  | Some e => ret (Some e)
  | None =>
  match containerConfigFor service with
  | None => ret (Some "Invalid service specified")
  | Some containerConfig =>
  let image := cfgImage containerConfig in
  let* err := call (EvImagePull image) (docker_ImagePull image) in
  match err with
  | Some e => ret (Some e)
  | None =>
  let* err := call (EvReadAll image) (ioutil_ReadAll image) in
  match err with
  | Some e => log_Panic e
  | None =>
  let containerConfig :=
    {| cfgImage := cfgImage containerConfig;
       cfgLabels := cfgLabels containerConfig;
       cfgEnv := ["CONFIG_DIR=" +:+ ConfigDir; "INSTANCE_ID=" +:+ InstanceID] |} in
  let hostConfig :=
    {| AutoRemove := true;
       Privileged := true;
       Binds := ["/var/run/docker.sock:/var/run/docker.sock";
                 ConfigDir +:+ ":" +:+ ConfigDir];
       PublishAllPorts := true |} in
  let name := containerName service in
  let* (res, err) :=
    call (EvContainerCreate containerConfig hostConfig name)
         (docker_ContainerCreate containerConfig hostConfig name) in
  match err with
  | Some e => ret (Some e)
  | None =>
  let* startErr := call (EvContainerStart res) (docker_ContainerStart res) in
  match startErr with
  | Some e => ret (Some e)
  | None => ret None
  end end end end end end.

Definition stopService (service : Service) : M Env (option error) :=
  emit (EvInvoke (StopService service)) ;;
  log_Println ("stopping service: " +:+ service) ;;
  let* err := ask docker_NewEnvClient in
  match err with
  | Some e => ret (Some e)
  | None =>
      let args := [("label", managedLabel); ("name", containerName service)] in
      let* (containers, err) :=
        call (EvContainerList args) (docker_ContainerList args) in
      match err with
      | Some e => log_Fatal e
      | None =>
          forEach containers (fun container =>
            let* _ := call (EvContainerStop (ID container))
                           (docker_ContainerStop (ID container)) in
            ret tt) ;;
          ret None
      end
  end.

(** The inner comparison loops of [ensureServices]: the flag is set when
    some element of [others] equals [x]. *)
Definition existsIn (x : Service) (others : Services) : bool :=
  foldl (fun found y => if String.eqb x y then true else found) false others.

(** First loop of [ensureServices]; an incoming service that exists
    locally ends the loop ([break]). *)
Fixpoint startMissing (localServices incomingServices : Services) : M Env unit :=
  match incomingServices with
  | [] => ret tt
  | incomingService :: rest =>
      if existsIn incomingService localServices then ret tt
      else
        let* err := startService incomingService in
        match err with
        | Some e => log_Println e
        | None => ret tt
        end ;;
        startMissing localServices rest
  end.

(** Second loop of [ensureServices], with the same [break]. *)
Fixpoint stopExtra (incomingServices localServices : Services) : M Env unit :=
  match localServices with
  | [] => ret tt
  | localService :: rest =>
      if existsIn localService incomingServices then ret tt
      else
        let* err := stopService localService in
        match err with
        | Some e => log_Println e
        | None => ret tt
        end ;;
        stopExtra incomingServices rest
  end.

Definition ensureServices (incomingServices : Services) : M Env unit :=
  let* (localServices, err) := getLocalServices in
  match err with
  | Some e => log_Panicln e
  | None =>
      startMissing localServices incomingServices ;;
      stopExtra incomingServices localServices
  end.

(** The port loop of [configureService]: the published port of the last
    mapping of internal port 50052, and the zero value without one. *)
Definition controlPort (ports : list Port) : Z :=
  foldl (fun gRPCPort portPair =>
           if (PrivatePort portPair =? 50052)%Z then PublicPort portPair
           else gRPCPort) 0%Z ports.

(** The container loop of [configureService]; a failed delivery returns
    from the function. *)
Fixpoint configureContainers (service : Service) (containers : list Container)
  : M Env (option error) :=
  match containers with
  | [] => ret None
  | container :: rest =>
  let gRPCPort := controlPort (Ports container) in
  let prefix := "instances/" +:+ InstanceID +:+ "/services/" +:+ service in
  let* (kvs, err) := call (EvKVList prefix) (consul_KVList prefix) in
  match err with
  | Some e => log_Fatal e
  | None =>
  let (configMap, err) := ConsulKVsToJSON kvs in
  match err with
  | Some e => log_Fatal e
  | None =>
  let '(serviceConfig, dataType, err) :=
    jsonparser_Get configMap ["instances"; InstanceID; "services"; service] in
  match err with
  | Some e => log_Fatal e
  | None =>
  (if ValueType_eqb dataType NotExist then log_Println "invalid JSON"
   else ret tt) ;;
  let target := "localhost:" +:+ pretty gRPCPort in
  let* err := call (EvDial target) (grpc_Dial target) in
  match err with
  | Some e => log_Fatal ("fail to dial: " +:+ e)
  | None =>
  let config := from_option json_raw "" serviceConfig in
  let* errConfiguring :=
    call (EvConfigure target config) (manager_Configure target config) in
  match errConfiguring with
  | Some e => ret (Some e)
  | None => configureContainers service rest
  end end end end end
  end.

Definition configureService (service : Service) : M Env (option error) :=
  emit (EvInvoke (ConfigureService service)) ;;
  let* err := ask docker_NewEnvClient in
  match err with
  | Some e => ret (Some e)
  | None =>
      let args := [("label", managedLabel); ("name", containerName service)] in
      let* (containers, err) :=
        call (EvContainerList args) (docker_ContainerList args) in
      match err with
      | Some e => log_Fatal e
      | None =>
          let* err := ask consul_NewClient in
          match err with
          | Some e => log_Fatal e
          | None => configureContainers service containers
          end
      end
  end.

Fixpoint configureServicesFrom (errorList : list error) (services : Services)
  : M Env (list error) :=
  match services with
  | [] => ret errorList
  | service :: rest =>
      let* err := configureService service in
      configureServicesFrom
        (match err with
         | Some e => errorList ++ [e]
         | None => errorList
         end) rest
  end.

Definition configureServices (services : Services) : M Env (list error) :=
  configureServicesFrom [] services.

(** [m["instances"].(mt)[InstanceID].(mt)["services"].(mt)].  After a
    successful path lookup the only assertion that can fail is the last
    one, on a string. *)
Definition servicesMapOf (m : Document) : option Document :=
  instances ← typeAssertMap (lookupField m "instances");
  instance ← typeAssertMap (lookupField instances InstanceID);
  typeAssertMap (lookupField instance "services").

(** [ConfigHandler].  The services map is ranged over in the list order
    of the document; Go fixes no order for ranging over a map, so only
    what holds for every order of the document carries over to the
    code. *)
Definition ConfigHandler (kvs : KVPairs) : M Env unit :=
  set_HandlingServices true ;;
  let (m, err) := ConsulKVsToJSON kvs in
  match err with
  | Some e => log_Panic e
  | None =>
  let '(_, valueType, err) :=
    jsonparser_Get m ["instances"; InstanceID; "services"] in
  if ValueType_eqb valueType NotExist then ensureServices []
  else
  match err with
  | Some e => log_Fatal e
  | None =>
  match servicesMapOf m with
  | None => panic "interface conversion: interface {} is string, not map[string]interface {}"
  | Some servicesMap =>
  let incomingServices := foldl (fun acc kv => acc ++ [fst kv]) [] servicesMap in
  ensureServices incomingServices ;;
  let* (localServices, err) := getLocalServices in
  match err with
  | Some e => log_Fatal e
  | None =>
  configureServices localServices ;;
  set_HandlingServices false
  end end end end.
End Agent.

(** ** Reading a run *)

(** The entry points invoked during a run, in order. *)
Definition invocations (evs : list Event) : list Call :=
  omap (fun ev => match ev with EvInvoke c => Some c | _ => None end) evs.

Definition started (evs : list Event) : Services :=
  omap (fun c => match c with StartService s => Some s | _ => None end)
       (invocations evs).

Definition stopped (evs : list Event) : Services :=
  omap (fun c => match c with StopService s => Some s | _ => None end)
       (invocations evs).

Definition configured (evs : list Event) : Services :=
  omap (fun c => match c with ConfigureService s => Some s | _ => None end)
       (invocations evs).

(** The container specifications handed to the runtime's create call. *)
Definition creations (evs : list Event) : list (ContainerConfig * HostConfig * string) :=
  omap (fun ev => match ev with
                  | EvContainerCreate cfg host name => Some (cfg, host, name)
                  | _ => None
                  end) evs.

(** The managed-container listings (the filter of [getLocalServices]). *)
Definition relistings (evs : list Event) : nat :=
  length (omap (fun ev => match ev with
                          | EvContainerList args =>
                              if bool_decide (args = [("label", managedLabel)])
                              then Some args else None
                          | _ => None
                          end) evs).

(** The leading elements of [l] that do not occur in [others]: where the
    loops of [ensureServices] stop. *)
Fixpoint leadingAbsent (others l : Services) : Services :=
  match l with
  | [] => []
  | x :: rest =>
      if bool_decide (x ∈ others) then [] else x :: leadingAbsent others rest
  end.

(** The set differences of the specification, as lists. *)
Definition difference (l others : Services) : Services :=
  filter (fun x => x ∉ others) l.

Section Observations.
Context {Env : Type} `{!Runtime Env} `{!Config}.

(** The actual service set the runtime reports in [e]: what
    [getLocalServices] computes from a successful listing. *)
Definition actualServices (e : Env) : Services :=
  foldl collectService [] (docker_ContainerList [("label", managedLabel)] e).1.1.

(** The listing call of the runtime never fails. *)
Definition listing_ok : Prop :=
  forall args (e : Env), (docker_ContainerList args e).1.2 = None.

(** The runtime honours label filters: a listed container carries every
    label the filter names. *)
Definition honours_label_filter : Prop :=
  forall args (e : Env) c l,
    c ∈ (docker_ContainerList args e).1.1 ->
    ("label", l) ∈ args ->
    is_Some (Labels c !! l).

(** The path the handler looks up in the decoded document. *)
Definition servicesPath : list string := ["instances"; InstanceID; "services"].

(** [n] reconciliation passes in a row with the same desired set. *)
Fixpoint passes (n : nat) (incomingServices : Services) : M Env unit :=
  match n with
  | O => ret tt
  | S n' => ensureServices incomingServices ;; passes n' incomingServices
  end.
End Observations.

(** ** A simulated node

    A deterministic stand-in for the collaborators, used to run the agent
    on concrete scenarios: containers live in a list, the store is a list
    of pairs, and a manager answers on the host ports in [listening]. *)
Module Sim.

Record Node := {
  running : list Container;
  created : list Container;
  stubborn : list string;
  store : KVPairs;
  listening : list Z;
  delivered : list (string * string)
}.

(** A filter entry against a container: [label] asks for the presence
    of a label, [name] for a name containing the given text. *)
Definition matchesArg (c : Container) (arg : string * string) : bool :=
  if String.eqb arg.1 "label" then bool_decide (is_Some (Labels c !! arg.2))
  else if String.eqb arg.1 "name" then
    existsb (fun n => bool_decide (is_Some (String.index 0 arg.2 n))) (Names c)
  else true.

Definition matchesAll (args : Filters) (c : Container) : bool :=
  forallb (matchesArg c) args.

Definition list_containers (args : Filters) (n : Node)
  : (list Container * option error) * Node :=
  ((List.filter (matchesAll args) (running n), None), n).

Definition create_container (cfg : ContainerConfig) (host : HostConfig)
    (name : string) (n : Node) : (string * option error) * Node :=
  if existsb (fun c => bool_decide (("/" +:+ name) ∈ Names c)) (running n ++ created n)
  then (("", Some "Conflict. The container name is already in use"), n)
  else
    let c := {| ID := "id-" +:+ name;
                Names := ["/" +:+ name];
                Image := cfgImage cfg;
                Labels := cfgLabels cfg;
                Ports := if PublishAllPorts host
                         then [{| PrivatePort := 50052; PublicPort := 32768 |}]
                         else [] |} in
    (("id-" +:+ name, None),
     {| running := running n; created := created n ++ [c];
        stubborn := stubborn n; store := store n;
        listening := listening n; delivered := delivered n |}).

Definition start_container (id : string) (n : Node) : option error * Node :=
  match find (fun c => String.eqb (ID c) id) (created n) with
  | None => (Some "No such container", n)
  | Some c =>
      (None,
       {| running := running n ++ [c];
          created := List.filter (fun c' => negb (String.eqb (ID c') id)) (created n);
          stubborn := stubborn n; store := store n;
          listening := listening n; delivered := delivered n |})
  end.

Definition stop_container (id : string) (n : Node) : option error * Node :=
  if bool_decide (id ∈ stubborn n) then (Some "cannot stop container", n)
  else
    (None,
     {| running := List.filter (fun c => negb (String.eqb (ID c) id)) (running n);
        created := created n;
        stubborn := stubborn n; store := store n;
        listening := listening n; delivered := delivered n |}).

Definition list_keys (prefix : string) (n : Node) : (KVPairs * option error) * Node :=
  ((List.filter (fun kv => String.prefix prefix kv.1) (store n), None), n).

(** Splitting a key at its slashes. *)
Fixpoint splitPath (segment : string) (key : string) : list string :=
  match key with
  | EmptyString => [segment]
  | String.String ch rest =>
      if Ascii.eqb ch (Ascii.ascii_of_nat 47) then segment :: splitPath "" rest
      else splitPath (segment +:+ String.String ch "") rest
  end.

Definition setField (k : string) (v : JSON) (m : Document) : Document :=
  if existsb (fun kv => String.eqb kv.1 k) m
  then map (fun kv => if String.eqb kv.1 k then (k, v) else kv) m
  else m ++ [(k, v)].

Fixpoint insertPath (path : list string) (value : string) (m : Document) : Document :=
  match path with
  | [] => m
  | k :: ks =>
      match ks with
      | [] => setField k (JStr value) m
      | _ :: _ =>
          let sub := default [] (typeAssertMap (lookupField m k)) in
          setField k (JObj (insertPath ks value sub)) m
      end
  end.

Definition decode (kvs : KVPairs) : Document * option error :=
  (foldl (fun m kv => insertPath (splitPath "" kv.1) kv.2 m) [] kvs, None).

Fixpoint encode (v : JSON) : string :=
  match v with
  | JStr s => s
  | JObj fields =>
      "{" +:+
      (fix go (l : list (string * JSON)) : string :=
         match l with
         | [] => ""
         | (k, v') :: rest => k +:+ ":" +:+ encode v' +:+ ";" +:+ go rest
         end) fields
      +:+ "}"
  end.

Definition configure (target config : string) (n : Node) : option error * Node :=
  if existsb (fun p => String.eqb target ("localhost:" +:+ pretty p)) (listening n)
  then
    (None,
     {| running := running n; created := created n;
        stubborn := stubborn n; store := store n;
        listening := listening n;
        delivered := delivered n ++ [(target, config)] |})
  else (Some "connection refused", n).

#[export] Instance runtime : Runtime Node := {|
  docker_NewEnvClient := fun _ => None;
  docker_ContainerList := list_containers;
  docker_ImagePull := fun _ n => (None, n);
  ioutil_ReadAll := fun _ n => (None, n);
  docker_ContainerCreate := create_container;
  docker_ContainerStart := start_container;
  docker_ContainerStop := stop_container;
  consul_NewClient := fun _ => None;
  consul_KVList := list_keys;
  ConsulKVsToJSON := decode;
  json_raw := encode;
  grpc_Dial := fun _ n => (None, n);
  manager_Configure := configure
|}.

#[export] Instance config : Config := {|
  InstanceID := "node-1";
  ConfigDir := "/etc/opencopilot"
|}.

(** A managed container of service [s], with the given published ports
    and its deterministic name. *)
Definition managed (s : Service) (ports : list Port) : Container :=
  {| ID := "id-" +:+ containerName s;
     Names := ["/" +:+ containerName s];
     Image := "quay.io/opencopilot/haproxy-manager";
     Labels := <[managedLabel := ""]> (<[serviceLabel := s]> ∅);
     Ports := ports |}.

(** A container the agent does not manage. *)
Definition foreign (name : string) : Container :=
  {| ID := "id-" +:+ name; Names := ["/" +:+ name]; Image := "busybox";
     Labels := ∅; Ports := [] |}.

Definition controlPorts : list Port :=
  [{| PrivatePort := 50052; PublicPort := 32768 |}].

Definition node (cs : list Container) (kvs : KVPairs) : Node :=
  {| running := cs; created := []; stubborn := []; store := kvs;
     listening := [32768%Z]; delivered := [] |}.

(** The same node with containers that refuse to stop. *)
Definition stuck (cs : list Container) (kvs : KVPairs) : Node :=
  {| running := cs; created := []; stubborn := map ID cs; store := kvs;
     listening := [32768%Z]; delivered := [] |}.

(** A container with the managed label and no service-manager label. *)
Definition unlabelled (name : string) : Container :=
  {| ID := "id-" +:+ name; Names := ["/" +:+ name]; Image := "busybox";
     Labels := <[managedLabel := ""]> ∅; Ports := [] |}.

Definition idle (n : Node) : State Node :=
  {| env := n; HandlingServices := false |}.

(** The store content asking this node to run LB. *)
Definition wantsLB : KVPairs :=
  [("instances/node-1/services/LB/frontend/port", "80")].

(** The configuration sub-document of LB in [wantsLB]. *)
Definition configLB : JSON := JObj [("frontend", JObj [("port", JStr "80")])].
End Sim.


(** ** The status query and the watch loop *)

(** The generated messages [pb.AgentStatus] and
    [pb.AgentStatus_AgentService], with the fields [AgentGetStatus]
    fills in. *)
Module pb.
Record AgentStatus_AgentService := { Id : string; Image : string }.

Record AgentStatus := {
  InstanceId : string;
  Services : list AgentStatus_AgentService
}.
End pb.

(** The blocking read of the store: [kv.List] with a [WaitIndex], giving
    the pairs, the [LastIndex] of the query meta data and the error.
    Indices are [uint64] values. *)
Class WatchStore (Env : Type) := {
  consul_KVListWait : string -> Z -> Env -> (KVPairs * Z * option error) * Env
}.

Section Status.
Context {Env : Type} `{!Runtime Env} `{!Config}.

(** Body of the loop of [AgentGetStatus]. *)
Definition appendService (status : pb.AgentStatus) (container : Container)
  : pb.AgentStatus :=
  {| pb.InstanceId := pb.InstanceId status;
     pb.Services := pb.Services status
                    ++ [{| pb.Id := ID container; pb.Image := Image container |}] |}.

(** [AgentGetStatus]; the context argument carries nothing the function
    reads.  A nil status is [None]. *)
Definition AgentGetStatus : M Env (option pb.AgentStatus * option error) :=
  let* err := ask docker_NewEnvClient in
  match err with
  | Some e => ret (None, Some e)
  | None =>
      let status := {| pb.InstanceId := InstanceID; pb.Services := [] |} in
      let* (containers, err) :=
        call (EvContainerList []) (docker_ContainerList []) in
      match err with
      | Some e => log_Fatal e
      | None => ret (Some (foldl appendService status containers), None)
      end
  end.
End Status.

Section Watch.
Context {Env : Type} `{!WatchStore Env} `{!Config}.

(** The prefix [watchConfigTree] lists. *)
Definition watchPrefix : string := "instances/" +:+ InstanceID +:+ "/services/".

(** [watchConfigTree] calls itself without end as long as the store
    answers; [fuel] bounds the number of polls, and the result [None]
    says that the bound was reached.  A result [Some err] is the Go
    return value.  The store client argument is the world itself. *)
Fixpoint watchConfigTree (fuel : nat) (prevIndex : Z)
    (handler : KVPairs -> M Env unit) : M Env (option (option error)) :=
  match fuel with
  | O => ret None
  | S fuel' =>
      let* (answer, err) :=
        call (EvKVList watchPrefix) (consul_KVListWait watchPrefix prevIndex) in
      match err with
      | Some e => ret (Some (Some e))
      | None =>
          let kvs := answer.1 in
          let lastIndex := answer.2 in
          (if (prevIndex =? lastIndex)%Z then ret tt else handler kvs) ;;
          let* inner := watchConfigTree fuel' lastIndex handler in
          match inner with
          | None => ret None
          | Some _ => ret (Some None)
          end
      end
  end.
End Watch.

(** ** A simulated node with faults

    The simulated node behind switches that make a collaborator fail,
    and a script of answers for the blocking read of the store. *)
Module Faulty.
Import Sim.

Record World := {
  node : Node;
  script : list (KVPairs * Z * option error);
  clientError : option error;
  listError : option error;
  pullError : option error;
  readError : option error;
  createError : option error;
  startError : option error;
  consulError : option error;
  kvError : option error;
  dialError : option error
}.

Definition onNode (f : Node -> Node) (w : World) : World :=
  {| node := f (node w); script := script w;
     clientError := clientError w; listError := listError w;
     pullError := pullError w; readError := readError w;
     createError := createError w; startError := startError w;
     consulError := consulError w; kvError := kvError w;
     dialError := dialError w |}.

(** An operation of the node, unless the switch is set. *)
Definition guarded {A} (switch : World -> option error) (failed : A)
    (op : Node -> (A * option error) * Node) (w : World)
  : (A * option error) * World :=
  match switch w with
  | Some e => ((failed, Some e), w)
  | None => let '(a, n) := op (node w) in (a, onNode (fun _ => n) w)
  end.

Definition guarded_step (switch : World -> option error)
    (op : Node -> option error * Node) (w : World) : option error * World :=
  match switch w with
  | Some e => (Some e, w)
  | None => let '(a, n) := op (node w) in (a, onNode (fun _ => n) w)
  end.

(** A key with an empty segment does not decode. *)
Definition decodeStrict (kvs : KVPairs) : Document * option error :=
  if existsb (fun kv => existsb (String.eqb "") (splitPath "" kv.1)) kvs
  then ([], Some "malformed key")
  else decode kvs.

#[export] Instance runtime : Runtime World := {|
  docker_NewEnvClient := clientError;
  docker_ContainerList := fun args => guarded listError [] (list_containers args);
  docker_ImagePull := fun _ => guarded_step pullError (fun n => (None, n));
  ioutil_ReadAll := fun _ => guarded_step readError (fun n => (None, n));
  docker_ContainerCreate :=
    fun cfg host name => guarded createError "" (create_container cfg host name);
  docker_ContainerStart := fun id => guarded_step startError (start_container id);
  docker_ContainerStop := fun id => guarded_step (fun _ => None) (stop_container id);
  consul_NewClient := consulError;
  consul_KVList := fun prefix => guarded kvError [] (list_keys prefix);
  ConsulKVsToJSON := decodeStrict;
  json_raw := encode;
  grpc_Dial := fun _ => guarded_step dialError (fun n => (None, n));
  manager_Configure := fun target config =>
    guarded_step (fun _ => None) (configure target config)
|}.

(** The blocking read answers from the script, and makes the answered
    pairs the content of the store; an exhausted script is an unreachable
    store. *)
Definition list_wait (prefix : string) (waitIndex : Z) (w : World)
  : (KVPairs * Z * option error) * World :=
  match script w with
  | [] => (([], waitIndex, Some "store unreachable"), w)
  | answer :: rest =>
      (answer,
       {| node := {| running := running (node w); created := created (node w);
                     stubborn := stubborn (node w); store := answer.1.1;
                     listening := listening (node w);
                     delivered := delivered (node w) |};
          script := rest;
          clientError := clientError w; listError := listError w;
          pullError := pullError w; readError := readError w;
          createError := createError w; startError := startError w;
          consulError := consulError w; kvError := kvError w;
          dialError := dialError w |})
  end.

#[export] Instance watch : WatchStore World := {|
  consul_KVListWait := list_wait
|}.

(** The world around a node, with no fault and no script. *)
Definition sound (n : Node) : World :=
  {| node := n; script := [];
     clientError := None; listError := None; pullError := None;
     readError := None; createError := None; startError := None;
     consulError := None; kvError := None; dialError := None |}.

Definition scripted (n : Node) (answers : list (KVPairs * Z * option error))
  : World :=
  {| node := n; script := answers;
     clientError := None; listError := None; pullError := None;
     readError := None; createError := None; startError := None;
     consulError := None; kvError := None; dialError := None |}.

(** The world around a node in which the named collaborator call fails
    with [e]. *)
Definition broken (which : string) (e : error) (n : Node) : World :=
  let switch (name : string) := if String.eqb which name then Some e else None in
  {| node := n; script := [];
     clientError := switch "client"; listError := switch "list";
     pullError := switch "pull"; readError := switch "read";
     createError := switch "create"; startError := switch "start";
     consulError := switch "consul"; kvError := switch "kv";
     dialError := switch "dial" |}.

Definition at_rest (w : World) : State World :=
  {| env := w; HandlingServices := false |}.
End Faulty.

(** The simulated node with a store at rest: the blocking read times out
    and answers with the content of the store at the index waited for. *)
Module Resting.
#[export] Instance watch : WatchStore Sim.Node := {|
  consul_KVListWait := fun prefix waitIndex n =>
    (((Sim.list_keys prefix n).1.1, waitIndex, None), n)
|}.
End Resting.

(** * Properties *)

(** ** The comparison loops and the local listing *)

Section LoopFacts.
Context {Env : Type} `{!Runtime Env} `{!Config}.

Lemma existsIn_from (x : Service) (others : Services) (b : bool) :
  foldl (fun found y => if String.eqb x y then true else found) b others = true
  <-> b = true \/ x ∈ others.
Proof.
  revert b. induction others as [|y others IH]; intros b; simpl.
  - rewrite elem_of_nil. tauto.
  - rewrite IH, elem_of_cons.
    destruct (String.eqb_spec x y) as [->|Hne]; [tauto|].
    split; [tauto|]. intros [?|[?|?]]; tauto.
Qed.

Lemma existsIn_elem (x : Service) (others : Services) :
  existsIn x others = true <-> x ∈ others.
Proof.
  unfold existsIn. rewrite existsIn_from. split; [|tauto].
  intros [?|?]; [discriminate|assumption].
Qed.

Lemma existsIn_decide (x : Service) (others : Services) :
  existsIn x others = bool_decide (x ∈ others).
Proof.
  destruct (existsIn x others) eqn:E.
  - symmetry. apply bool_decide_eq_true. by apply existsIn_elem.
  - symmetry. apply bool_decide_eq_false. intros Hin.
    apply existsIn_elem in Hin. congruence.
Qed.

Lemma collectService_from (acc : Services) (cs : list Container) :
  foldl collectService acc cs
  = acc ++ omap (fun c => Labels c !! serviceLabel) cs.
Proof.
  revert acc. induction cs as [|c cs IH]; intros acc; simpl.
  - by rewrite app_nil_r.
  - rewrite IH. unfold collectService.
    destruct (Labels c !! serviceLabel); simpl; [|done].
    by rewrite <- app_assoc.
Qed.

Lemma actualServices_labels (e : Env) :
  actualServices e
  = omap (fun c => Labels c !! serviceLabel)
         (docker_ContainerList [("label", managedLabel)] e).1.1.
Proof. unfold actualServices. by rewrite collectService_from. Qed.

Lemma invocations_app (a b : list Event) :
  invocations (a ++ b) = invocations a ++ invocations b.
Proof. apply omap_app. Qed.

(** What [getLocalServices] does, case by case. *)
Lemma getLocalServices_run (st : State Env) :
  let r := getLocalServices st in
  match docker_NewEnvClient (env st) with
  | Some e => r = {| outcome := Returned ([], Some e); final := st; events := [] |}
  | None =>
      let res := docker_ContainerList [("label", managedLabel)] (env st) in
      let st' := {| env := res.2; HandlingServices := HandlingServices st |} in
      match res.1.2 with
      | Some e =>
          r = {| outcome := Panicked e; final := st';
                 events := [EvContainerList [("label", managedLabel)]; EvLog e] |}
      | None =>
          r = {| outcome := Returned (actualServices (env st), None); final := st';
                 events := [EvContainerList [("label", managedLabel)]] |}
      end
  end.
Proof.
  unfold getLocalServices, actualServices, bind, ask, call, ret, log_Panic, after. simpl.
  destruct (docker_NewEnvClient (env st)); simpl; [done|].
  destruct (docker_ContainerList _ (env st)) as [[cs [e|]] e']; simpl; done.
Qed.
End LoopFacts.

(** ** The monad *)

Section MonadFacts.
Context {Env : Type}.

Lemma bind_Returned {A B} (m : M Env A) (f : A -> M Env B) (st : State Env) (a : A) :
  outcome (m st) = Returned a ->
  bind m f st = after (events (m st)) (f a (final (m st))).
Proof. intros Ho. unfold bind. by rewrite Ho. Qed.

Lemma bind_Panicked {A B} (m : M Env A) (f : A -> M Env B) (st : State Env) (e : error) :
  outcome (m st) = Panicked e ->
  bind m f st
  = {| outcome := Panicked e; final := final (m st); events := events (m st) |}.
Proof. intros Ho. unfold bind. by rewrite Ho. Qed.

Lemma bind_Exited {A B} (m : M Env A) (f : A -> M Env B) (st : State Env) (e : error) :
  outcome (m st) = Exited e ->
  bind m f st
  = {| outcome := Exited e; final := final (m st); events := events (m st) |}.
Proof. intros Ho. unfold bind. by rewrite Ho. Qed.

(** Steps that cannot fail. *)
Lemma emit_bind {B} (ev : Event) (k : M Env B) (st : State Env) :
  (emit ev ;; k) st = after [ev] (k st).
Proof. done. Qed.

Lemma ask_bind {A B} (q : Env -> A) (k : A -> M Env B) (st : State Env) :
  bind (ask q) k st = after [] (k (q (env st)) st).
Proof. done. Qed.

Lemma call_bind {A B} (ev : Event) (op : Env -> A * Env) (k : A -> M Env B)
    (st : State Env) :
  bind (call ev op) k st
  = after [ev] (k (op (env st)).1
                  {| env := (op (env st)).2;
                     HandlingServices := HandlingServices st |}).
Proof. unfold bind, call. destruct (op (env st)); done. Qed.

Lemma after_nil {A} (r : Result Env A) : after [] r = r.
Proof. by destruct r. Qed.

Lemma after_after {A} (evs1 evs2 : list Event) (r : Result Env A) :
  after evs1 (after evs2 r) = after (evs1 ++ evs2) r.
Proof. unfold after. simpl. by rewrite app_assoc. Qed.
End MonadFacts.

(** ** The lifecycle manager *)

Section LifecycleFacts.
Context {Env : Type} `{!Runtime Env} `{!Config}.

Lemma containerConfigFor_unsupported (service : Service) :
  service <> "LB" -> containerConfigFor service = None.
Proof.
  intros Hne. unfold containerConfigFor.
  destruct (String.eqb_spec service "LB"); [contradiction|done].
Qed.

Lemma startService_invocations (service : Service) (st : State Env) :
  invocations (events (startService service st)) = [StartService service].
Proof.
  unfold startService, bind, ask, call, emit, ret, log_Println, log_Panic, after.
  simpl. repeat (case_match; simpl); done.
Qed.

Lemma startService_flag (service : Service) (st : State Env) :
  HandlingServices (final (startService service st)) = HandlingServices st.
Proof.
  unfold startService, bind, ask, call, emit, ret, log_Println, log_Panic, after.
  simpl. repeat (case_match; simpl); done.
Qed.

(** The loop of [stopService]: every listed container gets one stop
    call, whatever the calls answer. *)
Lemma stopEach_run (cs : list Container) (st : State Env) :
  let r := forEach cs (fun container =>
             let* _ := call (EvContainerStop (ID container))
                            (docker_ContainerStop (ID container)) in
             ret tt) st in
  outcome r = Returned tt
  /\ events r = map (fun c => EvContainerStop (ID c)) cs
  /\ HandlingServices (final r) = HandlingServices st.
Proof.
  cbv zeta. revert st. induction cs as [|c cs IH]; intros st; [done|].
  cbn [forEach].
  assert (Hbody : exists e1,
    (let* _ := call (EvContainerStop (ID c)) (docker_ContainerStop (ID c)) in
     ret tt) st
    = {| outcome := Returned tt;
         final := {| env := e1; HandlingServices := HandlingServices st |};
         events := [EvContainerStop (ID c)] |}).
  { unfold bind, call, ret, after. simpl.
    destruct (docker_ContainerStop (ID c) (env st)) as [err e1]. simpl. eauto. }
  destruct Hbody as [e1 Hbody].
  rewrite (bind_Returned _ _ _ _ (f_equal outcome Hbody)), Hbody.
  cbn [after outcome final events].
  destruct (IH {| env := e1; HandlingServices := HandlingServices st |})
    as (Ho & He & Hf).
  rewrite Ho, He, Hf. done.
Qed.

(** What [stopService] does, case by case. *)
Lemma stopService_run (service : Service) (st : State Env) :
  let args := [("label", managedLabel); ("name", containerName service)] in
  let res := docker_ContainerList args (env st) in
  let st1 := {| env := res.2; HandlingServices := HandlingServices st |} in
  stopService service st
  = after [EvInvoke (StopService service);
           EvLog ("stopping service: " +:+ service)]
      match docker_NewEnvClient (env st) with
      | Some e => {| outcome := Returned (Some e); final := st; events := [] |}
      | None =>
          match res.1.2 with
          | Some e =>
              {| outcome := Exited e; final := st1;
                 events := [EvContainerList args; EvLog e] |}
          | None =>
              {| outcome := Returned None;
                 final := final (forEach res.1.1 (fun container =>
                            let* _ := call (EvContainerStop (ID container))
                                           (docker_ContainerStop (ID container)) in
                            ret tt) st1);
                 events := EvContainerList args
                           :: map (fun c => EvContainerStop (ID c)) res.1.1 |}
          end
      end.
Proof.
  cbv zeta. unfold stopService, log_Println.
  rewrite emit_bind, emit_bind, after_after, ask_bind, after_nil.
  f_equal. destruct (docker_NewEnvClient (env st)) as [e|]; [done|].
  rewrite call_bind.
  destruct (docker_ContainerList _ (env st)) as [[cs [e|]] e1];
    cbn [fst snd]; [done|].
  match goal with |- context [forEach cs ?b ?s1] =>
    destruct (stopEach_run cs s1) as (Ho & He & Hf) end.
  rewrite (bind_Returned _ _ _ _ Ho), He. unfold after, ret. simpl.
  by rewrite app_nil_r.
Qed.

Lemma invocations_stops (cs : list Container) :
  invocations (map (fun c => EvContainerStop (ID c)) cs) = [].
Proof. induction cs; simpl; done. Qed.

Lemma stopService_invocations (service : Service) (st : State Env) :
  invocations (events (stopService service st)) = [StopService service].
Proof.
  rewrite stopService_run. cbv zeta.
  destruct (docker_NewEnvClient (env st)); [done|].
  destruct (docker_ContainerList _ (env st)) as [[cs [e|]] e1];
    cbn [fst snd after events]; [done|].
  unfold invocations. simpl. f_equal. apply invocations_stops.
Qed.

Lemma stopService_flag (service : Service) (st : State Env) :
  HandlingServices (final (stopService service st)) = HandlingServices st.
Proof.
  rewrite stopService_run. cbv zeta.
  destruct (docker_NewEnvClient (env st)); [done|].
  destruct (docker_ContainerList _ (env st)) as [[cs [e|]] e1];
    cbn [fst snd after final]; [done|].
  match goal with |- context [forEach cs ?b ?s1] =>
    destruct (stopEach_run cs s1) as (Ho & He & Hf) end.
  by rewrite Hf.
Qed.

(** A stop can only end the process through a failed listing; when the
    runtime's listing does not fail, [stopService] returns. *)
Lemma stopService_returns (service : Service) (st : State Env) :
  listing_ok -> exists err, outcome (stopService service st) = Returned err.
Proof.
  intros Hok. rewrite stopService_run. cbv zeta.
  destruct (docker_NewEnvClient (env st)); [by eexists|].
  rewrite Hok. by eexists.
Qed.

(** The specification [startService] hands to the runtime's create
    call, when it gets that far: the registry entry with the two
    environment variables, the fixed host configuration and the
    deterministic name. *)
Lemma startService_creations (service : Service) (st : State Env)
    (spec : ContainerConfig * HostConfig * string) :
  spec ∈ creations (events (startService service st)) ->
  exists base,
    containerConfigFor service = Some base
    /\ spec = ({| cfgImage := cfgImage base;
                  cfgLabels := cfgLabels base;
                  cfgEnv := ["CONFIG_DIR=" +:+ ConfigDir;
                             "INSTANCE_ID=" +:+ InstanceID] |},
               {| AutoRemove := true;
                  Privileged := true;
                  Binds := ["/var/run/docker.sock:/var/run/docker.sock";
                            ConfigDir +:+ ":" +:+ ConfigDir];
                  PublishAllPorts := true |},
               containerName service).
Proof.
  unfold startService, bind, ask, call, emit, ret, log_Println, log_Panic, after.
  simpl. destruct (containerConfigFor service) as [base|] eqn:Hbase.
  - repeat (case_match; simpl);
      rewrite ?elem_of_nil, ?list_elem_of_singleton; try tauto;
      intros ->; eauto.
  - repeat (case_match; simpl); by rewrite elem_of_nil.
Qed.

Lemma startService_creations_length (service : Service) (st : State Env) :
  length (creations (events (startService service st))) <= 1.
Proof.
  unfold startService, bind, ask, call, emit, ret, log_Println, log_Panic, after.
  simpl. repeat (case_match; simpl); lia.
Qed.

(** The create call is reached once the client is built, the service is
    in the registry and its image is pulled and read. *)
Lemma startService_creates (service : Service) (st : State Env)
    (base : ContainerConfig) :
  docker_NewEnvClient (env st) = None ->
  containerConfigFor service = Some base ->
  (docker_ImagePull (cfgImage base) (env st)).1 = None ->
  (ioutil_ReadAll (cfgImage base) (docker_ImagePull (cfgImage base) (env st)).2).1
  = None ->
  length (creations (events (startService service st))) = 1.
Proof.
  intros Hcli Hbase Hpull Hread.
  unfold startService, bind, ask, call, emit, ret, log_Println, log_Panic, after.
  simpl. rewrite Hcli, Hbase. simpl.
  destruct (docker_ImagePull (cfgImage base) (env st)) as [perr e1].
  simpl in Hpull, Hread. subst perr. simpl.
  destruct (ioutil_ReadAll (cfgImage base) e1) as [rerr e2].
  simpl in Hread. subst rerr. simpl.
  repeat (case_match; simpl); done.
Qed.

(** C5. A service name outside the static registry (any name other than
    LB) makes [startService] return an error at once: the error is
    "Invalid service specified" when the runtime client could be built
    and the client's error otherwise; the run consists of the entry and
    its log line only, so no image is pulled and no container is
    created or started, and the state is left as it was. *)
Theorem startService_unsupported (service : Service) (st : State Env) :
  service <> "LB" ->
  let r := startService service st in
  (exists e, outcome r = Returned (Some e))
  /\ (docker_NewEnvClient (env st) = None ->
      outcome r = Returned (Some "Invalid service specified"))
  /\ final r = st
  /\ events r = [EvInvoke (StartService service);
                 EvLog ("adding service: " +:+ service)].
Proof.
  intros Hne. unfold startService, bind, ask, emit, ret, log_Println. simpl.
  rewrite (containerConfigFor_unsupported service Hne).
  destruct (docker_NewEnvClient (env st)) as [e|]; simpl.
  - split; [eauto|]. split; [discriminate|]. done.
  - split; [eauto|]. done.
Qed.

(** C10. Once the listing of [stopService] has succeeded the function
    returns nil, whatever the runtime answers to the stop calls: each
    listed container receives one stop call whose error is dropped, and
    with no listed container nothing is done beyond the listing. *)
Theorem stopService_always_nil (service : Service) (st : State Env)
    (cs : list Container) (e' : Env) :
  docker_NewEnvClient (env st) = None ->
  docker_ContainerList [("label", managedLabel); ("name", containerName service)]
                       (env st) = ((cs, None), e') ->
  let r := stopService service st in
  outcome r = Returned None
  /\ events r = [EvInvoke (StopService service);
                 EvLog ("stopping service: " +:+ service);
                 EvContainerList [("label", managedLabel);
                                  ("name", containerName service)]]
                ++ map (fun c => EvContainerStop (ID c)) cs
  /\ (cs = [] -> env (final r) = e').
Proof.
  intros Hcli Hlist. cbv zeta. rewrite stopService_run. cbv zeta.
  rewrite Hcli, Hlist. cbn [fst snd after outcome events final].
  split; [done|]. split; [done|]. intros ->. done.
Qed.
End LifecycleFacts.

(** ** The reconciler *)

Section ReconcilerFacts.
Context {Env : Type} `{!Runtime Env} `{!Config}.

Lemma leadingAbsent_all (l : Services) : leadingAbsent [] l = l.
Proof.
  induction l as [|x l IH]; cbn [leadingAbsent]; [done|].
  rewrite bool_decide_eq_false_2 by apply not_elem_of_nil. by rewrite IH.
Qed.

Lemma leadingAbsent_covered (others l : Services) :
  (forall x, x ∈ l -> x ∈ others) -> leadingAbsent others l = [].
Proof.
  destruct l as [|x l]; cbn [leadingAbsent]; [done|]. intros Hin.
  rewrite bool_decide_eq_true_2; [done|]. apply Hin. left.
Qed.

(** The optional log line after a start or stop. *)
Lemma logged_run (err : option error) (st : State Env) :
  (match err with
   | Some e => log_Println e
   | None => ret tt
   end) st
  = {| outcome := Returned tt; final := st;
       events := match err with Some e => [EvLog e] | None => [] end |}.
Proof. by destruct err. Qed.

Lemma invocations_logged (err : option error) :
  invocations (match err with Some e => [EvLog e] | None => [] end) = [].
Proof. by destruct err. Qed.

(** The first loop invokes [startService] along the leading incoming
    services that are not running, in order, until the process dies or
    the loop ends. *)
Lemma startMissing_invocations (localServices incomingServices : Services)
    (st : State Env) :
  invocations (events (startMissing localServices incomingServices st))
    `prefix_of` map StartService (leadingAbsent localServices incomingServices)
  /\ (outcome (startMissing localServices incomingServices st) = Returned tt ->
      invocations (events (startMissing localServices incomingServices st))
      = map StartService (leadingAbsent localServices incomingServices))
  /\ HandlingServices (final (startMissing localServices incomingServices st))
     = HandlingServices st.
Proof.
  revert st. induction incomingServices as [|x rest IH]; intros st.
  - simpl. split; [done|]. done.
  - cbn [startMissing leadingAbsent]. rewrite existsIn_decide.
    destruct (bool_decide (x ∈ localServices)); [by simpl|].
    pose proof (startService_invocations x st) as Hinv.
    pose proof (startService_flag x st) as Hflag.
    destruct (outcome (startService x st)) as [err|e|e] eqn:Ho.
    + rewrite (bind_Returned _ _ _ _ Ho).
      rewrite (bind_Returned _ _ _ tt) by by rewrite logged_run.
      rewrite logged_run. cbn [after outcome final events].
      rewrite !invocations_app, Hinv, invocations_logged.
      destruct (IH (final (startService x st))) as (Hp & Hr & Hf).
      cbn [map app]. split; [by apply prefix_cons|].
      split; [intros Hret; by rewrite (Hr Hret)|]. by rewrite Hf.
    + rewrite (bind_Panicked _ _ _ _ Ho). cbn [outcome final events].
      rewrite Hinv. cbn [map]. split; [apply prefix_cons, prefix_nil|].
      split; [discriminate|done].
    + rewrite (bind_Exited _ _ _ _ Ho). cbn [outcome final events].
      rewrite Hinv. cbn [map]. split; [apply prefix_cons, prefix_nil|].
      split; [discriminate|done].
Qed.

(** The second loop does the same with [stopService] along the leading
    running services that are not incoming. *)
Lemma stopExtra_invocations (incomingServices localServices : Services)
    (st : State Env) :
  invocations (events (stopExtra incomingServices localServices st))
    `prefix_of` map StopService (leadingAbsent incomingServices localServices)
  /\ (outcome (stopExtra incomingServices localServices st) = Returned tt ->
      invocations (events (stopExtra incomingServices localServices st))
      = map StopService (leadingAbsent incomingServices localServices))
  /\ HandlingServices (final (stopExtra incomingServices localServices st))
     = HandlingServices st.
Proof.
  revert st. induction localServices as [|x rest IH]; intros st.
  - simpl. split; [done|]. done.
  - cbn [stopExtra leadingAbsent]. rewrite existsIn_decide.
    destruct (bool_decide (x ∈ incomingServices)); [by simpl|].
    pose proof (stopService_invocations x st) as Hinv.
    pose proof (stopService_flag x st) as Hflag.
    destruct (outcome (stopService x st)) as [err|e|e] eqn:Ho.
    + rewrite (bind_Returned _ _ _ _ Ho).
      rewrite (bind_Returned _ _ _ tt) by by rewrite logged_run.
      rewrite logged_run. cbn [after outcome final events].
      rewrite !invocations_app, Hinv, invocations_logged.
      destruct (IH (final (stopService x st))) as (Hp & Hr & Hf).
      cbn [map app]. split; [by apply prefix_cons|].
      split; [intros Hret; by rewrite (Hr Hret)|]. by rewrite Hf.
    + rewrite (bind_Panicked _ _ _ _ Ho). cbn [outcome final events].
      rewrite Hinv. cbn [map]. split; [apply prefix_cons, prefix_nil|].
      split; [discriminate|done].
    + rewrite (bind_Exited _ _ _ _ Ho). cbn [outcome final events].
      rewrite Hinv. cbn [map]. split; [apply prefix_cons, prefix_nil|].
      split; [discriminate|done].
Qed.

(** With a runtime whose listing does not fail, the second loop runs to
    its end. *)
Lemma stopExtra_returns (incomingServices localServices : Services)
    (st : State Env) :
  listing_ok ->
  outcome (stopExtra incomingServices localServices st) = Returned tt.
Proof.
  intros Hok. revert st. induction localServices as [|x rest IH]; intros st.
  - done.
  - cbn [stopExtra]. destruct (existsIn x incomingServices); [done|].
    destruct (stopService_returns x st Hok) as [err Ho].
    rewrite (bind_Returned _ _ _ _ Ho).
    rewrite (bind_Returned _ _ _ tt) by by rewrite logged_run.
    cbn [after outcome]. apply IH.
Qed.

(** Both loops end at once when their first element is found on the
    other side, and on an empty list. *)
Lemma startMissing_covered (localServices incomingServices : Services)
    (st : State Env) :
  (forall x, x ∈ incomingServices -> x ∈ localServices) ->
  startMissing localServices incomingServices st = ret tt st.
Proof.
  destruct incomingServices as [|x rest]; [done|]. intros Hin.
  cbn [startMissing]. rewrite existsIn_decide, bool_decide_eq_true_2; [done|].
  apply Hin. left.
Qed.

Lemma stopExtra_covered (incomingServices localServices : Services)
    (st : State Env) :
  (forall x, x ∈ localServices -> x ∈ incomingServices) ->
  stopExtra incomingServices localServices st = ret tt st.
Proof.
  destruct localServices as [|x rest]; [done|]. intros Hin.
  cbn [stopExtra]. rewrite existsIn_decide, bool_decide_eq_true_2; [done|].
  apply Hin. left.
Qed.

(** A pass after a successful listing: the listing, then the two
    loops. *)
Lemma ensureServices_run (incomingServices localServices : Services)
    (st : State Env) :
  outcome (getLocalServices st) = Returned (localServices, None) ->
  ensureServices incomingServices st
  = after (events (getLocalServices st))
      ((startMissing localServices incomingServices ;;
        stopExtra incomingServices localServices)
         (final (getLocalServices st))).
Proof. intros Ho. unfold ensureServices. by rewrite (bind_Returned _ _ _ _ Ho). Qed.

Lemma getLocalServices_invocations (st : State Env) :
  invocations (events (getLocalServices st)) = [].
Proof.
  pose proof (getLocalServices_run st) as Hrun. cbv zeta in Hrun.
  destruct (docker_NewEnvClient (env st)); [by rewrite Hrun|].
  destruct (docker_ContainerList _ (env st)) as [[cs [e|]] e1];
    simpl in Hrun; by rewrite Hrun.
Qed.

Lemma getLocalServices_flag (st : State Env) :
  HandlingServices (final (getLocalServices st)) = HandlingServices st.
Proof.
  pose proof (getLocalServices_run st) as Hrun. cbv zeta in Hrun.
  destruct (docker_NewEnvClient (env st)); [by rewrite Hrun|].
  destruct (docker_ContainerList _ (env st)) as [[cs [e|]] e1];
    simpl in Hrun; by rewrite Hrun.
Qed.

(** A successful listing returns the services the runtime reports. *)
Lemma getLocalServices_actual (st : State Env) (localServices : Services) :
  outcome (getLocalServices st) = Returned (localServices, None) ->
  localServices = actualServices (env st).
Proof.
  pose proof (getLocalServices_run st) as Hrun. cbv zeta in Hrun.
  destruct (docker_NewEnvClient (env st)); [rewrite Hrun; by simpl|].
  destruct (docker_ContainerList _ (env st)) as [[cs [e|]] e1];
    simpl in Hrun; rewrite Hrun; simpl; congruence.
Qed.

Lemma leadingAbsent_elem (others l : Services) (x : Service) :
  x ∈ leadingAbsent others l -> x ∈ l /\ x ∉ others.
Proof.
  induction l as [|y l IH]; cbn [leadingAbsent]; [by intros ?%elem_of_nil|].
  case_bool_decide as Hy; [by intros ?%elem_of_nil|].
  intros [->|Hin]%elem_of_cons.
  - split; [left|done].
  - destruct (IH Hin). split; [by right|done].
Qed.

(** What a pass invokes after a successful listing. *)
Lemma ensureServices_invocations (incomingServices localServices : Services)
    (st : State Env) :
  outcome (getLocalServices st) = Returned (localServices, None) ->
  invocations (events (ensureServices incomingServices st))
    `prefix_of` (map StartService (leadingAbsent localServices incomingServices)
                 ++ map StopService (leadingAbsent incomingServices localServices))
  /\ (outcome (ensureServices incomingServices st) = Returned tt ->
      invocations (events (ensureServices incomingServices st))
      = map StartService (leadingAbsent localServices incomingServices)
        ++ map StopService (leadingAbsent incomingServices localServices))
  /\ HandlingServices (final (ensureServices incomingServices st))
     = HandlingServices st.
Proof.
  intros Ho. rewrite (ensureServices_run _ _ _ Ho).
  cbn [after outcome final events].
  rewrite invocations_app, getLocalServices_invocations. cbn [app].
  set (st1 := final (getLocalServices st)).
  assert (Hst1 : HandlingServices st1 = HandlingServices st)
    by apply getLocalServices_flag.
  destruct (startMissing_invocations localServices incomingServices st1)
    as (Hp & Hr & Hf).
  destruct (outcome (startMissing localServices incomingServices st1))
    as [[]|e|e] eqn:Hos.
  - rewrite (bind_Returned _ _ _ _ Hos). cbn [after outcome final events].
    rewrite invocations_app, (Hr eq_refl).
    destruct (stopExtra_invocations incomingServices localServices
                (final (startMissing localServices incomingServices st1)))
      as (Hp' & Hr' & Hf').
    split; [by apply prefix_app|].
    split; [intros Hret; by rewrite (Hr' Hret)|]. by rewrite Hf', Hf.
  - rewrite (bind_Panicked _ _ _ _ Hos). cbn [outcome final events].
    split; [by apply prefix_app_r|]. split; [discriminate|by rewrite Hf].
  - rewrite (bind_Exited _ _ _ _ Hos). cbn [outcome final events].
    split; [by apply prefix_app_r|]. split; [discriminate|by rewrite Hf].
Qed.

(** Without a successful listing a pass invokes nothing. *)
Lemma ensureServices_no_listing (incomingServices : Services) (st : State Env) :
  (forall localServices,
      outcome (getLocalServices st) <> Returned (localServices, None)) ->
  invocations (events (ensureServices incomingServices st)) = [].
Proof.
  intros Hno. unfold ensureServices.
  pose proof (getLocalServices_invocations st) as Hinv.
  destruct (outcome (getLocalServices st)) as [[l [e|]]|e|e] eqn:Ho.
  - rewrite (bind_Returned _ _ _ _ Ho). cbn [after events].
    by rewrite invocations_app, Hinv.
  - by destruct (Hno l).
  - by rewrite (bind_Panicked _ _ _ _ Ho).
  - by rewrite (bind_Exited _ _ _ _ Ho).
Qed.

(** Every service handed to [stopService] by a pass was reported by the
    listing and is not desired. *)
Lemma ensureServices_stopped_elem (incomingServices : Services)
    (st : State Env) (s : Service) :
  s ∈ stopped (events (ensureServices incomingServices st)) ->
  s ∈ actualServices (env st) /\ s ∉ incomingServices.
Proof.
  unfold stopped. intros Hin.
  destruct (outcome (getLocalServices st)) as [[l [e|]]|e|e] eqn:Ho.
  1,3,4: rewrite ensureServices_no_listing in Hin;
           [by apply elem_of_nil in Hin | intros l'; rewrite Ho; congruence].
  destruct (ensureServices_invocations incomingServices l st Ho)
    as ([k Hk] & _ & _).
  assert (Hin' : s ∈ omap (fun c => match c with
                                    | StopService s => Some s
                                    | _ => None
                                    end)
                   (map StartService (leadingAbsent l incomingServices)
                    ++ map StopService (leadingAbsent incomingServices l))).
  { rewrite Hk, omap_app. apply elem_of_app. by left. }
  rewrite omap_app in Hin'. apply elem_of_app in Hin' as [Hin'|Hin'].
  - apply list_elem_of_omap in Hin' as (c & Hc & Hs).
    apply list_elem_of_fmap in Hc as (x & -> & _). discriminate.
  - apply list_elem_of_omap in Hin' as (c & Hc & Hs).
    apply list_elem_of_fmap in Hc as (x & -> & Hx). simplify_eq.
    apply leadingAbsent_elem in Hx as [Hl Hn].
    by rewrite <- (getLocalServices_actual st l Ho).
Qed.

Lemma creations_app (a b : list Event) :
  creations (a ++ b) = creations a ++ creations b.
Proof. apply omap_app. Qed.

Lemma getLocalServices_creations (st : State Env) :
  creations (events (getLocalServices st)) = [].
Proof.
  pose proof (getLocalServices_run st) as Hrun. cbv zeta in Hrun.
  destruct (docker_NewEnvClient (env st)); [by rewrite Hrun|].
  destruct (docker_ContainerList _ (env st)) as [[cs [e|]] e1];
    simpl in Hrun; by rewrite Hrun.
Qed.

(** The pass of the start scenario: the listing, one [startService] for
    LB, and at most a log line. *)
Lemma start_LB_events (st : State Env) :
  outcome (getLocalServices st) = Returned ([], None) ->
  exists logs,
    events (ensureServices ["LB"] st)
    = events (getLocalServices st)
      ++ events (startService "LB" (final (getLocalServices st))) ++ logs
    /\ invocations logs = [] /\ creations logs = [].
Proof.
  intros Ho. rewrite (ensureServices_run _ _ _ Ho).
  set (st1 := final (getLocalServices st)).
  cbn [after events startMissing stopExtra].
  change (existsIn "LB" []) with false. cbn iota.
  destruct (outcome (startService "LB" st1)) as [err|e|e] eqn:Hos.
  - exists (match err with Some e => [EvLog e] | None => [] end).
    split; [|by destruct err].
    f_equal. unfold bind at 1.
    rewrite (bind_Returned _ _ _ _ Hos).
    rewrite (bind_Returned _ _ _ tt) by by rewrite logged_run.
    rewrite logged_run. cbn [after outcome final events ret].
    by rewrite !app_nil_r.
  - exists []. split; [|done]. f_equal. unfold bind at 1.
    rewrite (bind_Panicked _ _ _ _ Hos). cbn [outcome events].
    by rewrite app_nil_r.
  - exists []. split; [|done]. f_equal. unfold bind at 1.
    rewrite (bind_Exited _ _ _ _ Hos). cbn [outcome events].
    by rewrite app_nil_r.
Qed.

(** C2. Reconciling a converged state does nothing: when the desired
    services and the services the runtime reports are the same names, a
    pass returns after its listing alone, with no start and no stop; and
    as long as the listing leaves the world as it is, any number of
    further passes does the same. *)
Theorem reconcile_converged_idle (desired actual : Services) (st : State Env) :
  (forall s, s ∈ desired <-> s ∈ actual) ->
  outcome (getLocalServices st) = Returned (actual, None) ->
  (outcome (ensureServices desired st) = Returned tt
   /\ events (ensureServices desired st) = events (getLocalServices st)
   /\ started (events (ensureServices desired st)) = []
   /\ stopped (events (ensureServices desired st)) = [])
  /\ (final (getLocalServices st) = st ->
      forall n,
        outcome (passes n desired st) = Returned tt
        /\ invocations (events (passes n desired st)) = []
        /\ final (passes n desired st) = st).
Proof.
  intros Hsame Ho.
  assert (Hrun : ensureServices desired st
                 = {| outcome := Returned tt;
                      final := final (getLocalServices st);
                      events := events (getLocalServices st) |}).
  { rewrite (ensureServices_run _ _ _ Ho).
    unfold bind at 1.
    rewrite startMissing_covered by (intros x; apply Hsame).
    cbn [ret outcome final events].
    rewrite stopExtra_covered by (intros x; apply Hsame).
    unfold after, ret. cbn [outcome final events]. by rewrite !app_nil_r. }
  assert (Hinv : invocations (events (ensureServices desired st)) = []).
  { rewrite Hrun. apply getLocalServices_invocations. }
  split.
  - unfold started, stopped. rewrite Hinv. by rewrite Hrun.
  - intros Hfix n. induction n as [|n (IHo & IHi & IHf)]; [done|].
    cbn [passes].
    rewrite (bind_Returned _ _ _ tt) by by rewrite Hrun.
    cbn [after outcome final events].
    rewrite invocations_app, Hinv.
    replace (final (ensureServices desired st)) with st
      by (rewrite Hrun; symmetry; exact Hfix).
    done.
Qed.

(** C4. With a runtime that honours label filters, every service in the
    actual set computed by [getLocalServices], and every service a
    reconciliation pass hands to [stopService], is the service-manager
    label of a listed container that carries the managed label too: a
    container lacking either label contributes nothing and is never
    stopped. *)
Theorem unmanaged_containers_ignored (st : State Env) :
  honours_label_filter ->
  let listed := (docker_ContainerList [("label", managedLabel)] (env st)).1.1 in
  (forall localServices err s,
      outcome (getLocalServices st) = Returned (localServices, err) ->
      s ∈ localServices ->
      exists c, c ∈ listed
                /\ is_Some (Labels c !! managedLabel)
                /\ Labels c !! serviceLabel = Some s)
  /\ (forall incomingServices s,
         s ∈ stopped (events (ensureServices incomingServices st)) ->
         exists c, c ∈ listed
                   /\ is_Some (Labels c !! managedLabel)
                   /\ Labels c !! serviceLabel = Some s).
Proof.
  intros Hfilter listed.
  assert (Hactual : forall s, s ∈ actualServices (env st) ->
            exists c, c ∈ listed
                      /\ is_Some (Labels c !! managedLabel)
                      /\ Labels c !! serviceLabel = Some s).
  { intros s Hs. rewrite actualServices_labels in Hs.
    apply list_elem_of_omap in Hs as (c & Hc & Hl).
    exists c. split; [done|]. split; [|done].
    apply (Hfilter [("label", managedLabel)] (env st) c managedLabel Hc).
    left. }
  split.
  - intros l [e|] s Ho Hs.
    + pose proof (getLocalServices_run st) as Hrun. cbv zeta in Hrun.
      destruct (docker_NewEnvClient (env st)).
      * rewrite Hrun in Ho. simpl in Ho. simplify_eq.
        by apply elem_of_nil in Hs.
      * destruct (docker_ContainerList _ (env st)) as [[cs [e'|]] e1];
          simpl in Hrun; rewrite Hrun in Ho; simpl in Ho; discriminate.
    + apply Hactual. by rewrite <- (getLocalServices_actual st l Ho).
  - intros incoming s Hs. apply Hactual.
    by apply (ensureServices_stopped_elem incoming st s).
Qed.

(** C6. Desired LB on a node that runs nothing: the pass makes exactly
    one [startService] call, for LB, and no stop; a container it creates
    carries the managed label and the service-manager label LB, has
    CONFIG_DIR and INSTANCE_ID in its environment, publishes all ports,
    is removed on exit, is privileged and is named
    com.opencopilot.service-manager.LB; at most one container is
    created, and exactly one once the client is built and the image is
    pulled and read. *)
Theorem start_LB_scenario (st : State Env) :
  outcome (getLocalServices st) = Returned ([], None) ->
  let r := ensureServices ["LB"] st in
  let st1 := final (getLocalServices st) in
  let image := "quay.io/opencopilot/haproxy-manager" in
  invocations (events r) = [StartService "LB"]
  /\ (forall cfg host name,
         (cfg, host, name) ∈ creations (events r) ->
         cfgLabels cfg !! managedLabel = Some ""
         /\ cfgLabels cfg !! serviceLabel = Some "LB"
         /\ ("CONFIG_DIR=" +:+ ConfigDir) ∈ cfgEnv cfg
         /\ ("INSTANCE_ID=" +:+ InstanceID) ∈ cfgEnv cfg
         /\ PublishAllPorts host = true
         /\ AutoRemove host = true
         /\ Privileged host = true
         /\ name = "com.opencopilot.service-manager.LB")
  /\ length (creations (events r)) <= 1
  /\ (docker_NewEnvClient (env st1) = None ->
      (docker_ImagePull image (env st1)).1 = None ->
      (ioutil_ReadAll image (docker_ImagePull image (env st1)).2).1 = None ->
      length (creations (events r)) = 1).
Proof.
  intros Ho r st1 image. subst r.
  destruct (start_LB_events st Ho) as (logs & Hev & Hil & Hcl).
  fold st1 in Hev. rewrite Hev.
  rewrite !invocations_app, !creations_app, Hil, Hcl, !app_nil_r.
  rewrite getLocalServices_invocations, getLocalServices_creations.
  cbn [app]. split; [apply startService_invocations|].
  split; [|split].
  - intros cfg host name Hin.
    apply startService_creations in Hin as (base & Hbase & Hspec).
    unfold containerConfigFor in Hbase. simpl in Hbase.
    injection Hbase as <-. injection Hspec as -> -> ->.
    cbn [cfgLabels cfgEnv PublishAllPorts AutoRemove Privileged].
    split; [done|]. split; [done|].
    split; [left|]. split; [right; left|]. done.
  - apply startService_creations_length.
  - intros Hcli Hpull Hread.
    by apply (startService_creates "LB" st1
                {| cfgImage := image;
                   cfgLabels := <[managedLabel := ""]> (<[serviceLabel := "LB"]> ∅);
                   cfgEnv := [] |}).
Qed.
End ReconcilerFacts.

(** ** The configurator *)

Section ConfiguratorFacts.
Context {Env : Type} `{!Runtime Env} `{!Config}.

Lemma controlPort_from (ports : list Port) (p0 : Z) :
  (forall p, p ∈ ports -> PrivatePort p <> 50052%Z) ->
  foldl (fun gRPCPort portPair =>
           if (PrivatePort portPair =? 50052)%Z then PublicPort portPair
           else gRPCPort) p0 ports = p0.
Proof.
  revert p0. induction ports as [|p ports IH]; intros p0 Hno; simpl; [done|].
  destruct (Z.eqb_spec (PrivatePort p) 50052) as [Heq|_].
  - destruct (Hno p); [left|done].
  - apply IH. intros q Hq. apply Hno. by right.
Qed.

(** Without a mapping of internal port 50052 the port variable keeps
    its zero value. *)
Lemma controlPort_unpublished (ports : list Port) :
  (forall p, p ∈ ports -> PrivatePort p <> 50052%Z) -> controlPort ports = 0%Z.
Proof. apply controlPort_from. Qed.

Lemma configureContainers_quiet (service : Service) (cs : list Container)
    (st : State Env) :
  invocations (events (configureContainers service cs st)) = []
  /\ HandlingServices (final (configureContainers service cs st))
     = HandlingServices st.
Proof.
  revert st. induction cs as [|c cs IH]; intros st; [done|].
  cbn [configureContainers]. rewrite call_bind.
  destruct (consul_KVList _ (env st)) as [[kvs [e|]] e1]; cbn [fst snd]; [done|].
  destruct (ConsulKVsToJSON kvs) as [m [e|]]; [done|].
  destruct (jsonparser_Get m _) as [[v ty] [e|]]; [done|].
  rewrite (bind_Returned _ _ _ tt) by by destruct (ValueType_eqb ty NotExist).
  rewrite call_bind.
  match goal with |- context [grpc_Dial ?t ?e] =>
    destruct (grpc_Dial t e) as [[e'|] e2] end;
    cbn [fst snd]; [by destruct (ValueType_eqb ty NotExist)|].
  rewrite call_bind.
  match goal with |- context [manager_Configure ?t ?c ?e] =>
    destruct (manager_Configure t c e) as [[e'|] e3] end;
    cbn [fst snd]; [by destruct (ValueType_eqb ty NotExist)|].
  cbn [after events final]. rewrite !invocations_app.
  match goal with |- context [configureContainers service cs ?s1] =>
    destruct (IH s1) as [Hi Hf] end.
  rewrite Hi, Hf. by destruct (ValueType_eqb ty NotExist).
Qed.

Lemma configureService_invocations (service : Service) (st : State Env) :
  invocations (events (configureService service st)) = [ConfigureService service]
  /\ HandlingServices (final (configureService service st))
     = HandlingServices st.
Proof.
  unfold configureService. rewrite emit_bind, ask_bind, after_nil.
  destruct (docker_NewEnvClient (env st)); [done|].
  rewrite call_bind.
  destruct (docker_ContainerList _ (env st)) as [[cs [e|]] e1];
    cbn [fst snd]; [done|].
  rewrite ask_bind, after_nil. cbn [env].
  destruct (consul_NewClient e1); [done|].
  cbn [after events final].
  match goal with |- context [configureContainers service cs ?s1] =>
    destruct (configureContainers_quiet service cs s1) as [Hi Hf] end.
  change (EvInvoke (ConfigureService service) :: ?x)
    with ([EvInvoke (ConfigureService service)] ++ x).
  rewrite !invocations_app.
  change (invocations ([EvContainerList ?a] ++ ?x)) with (invocations x).
  by rewrite Hi, Hf.
Qed.

(** The batch invokes [configureService] for the services of its list,
    in order, until the process dies or the list ends. *)
Lemma configureServicesFrom_invocations (errorList : list error)
    (services : Services) (st : State Env) :
  invocations (events (configureServicesFrom errorList services st))
    `prefix_of` map ConfigureService services
  /\ ((exists errs, outcome (configureServicesFrom errorList services st)
                    = Returned errs) ->
      invocations (events (configureServicesFrom errorList services st))
      = map ConfigureService services)
  /\ HandlingServices (final (configureServicesFrom errorList services st))
     = HandlingServices st.
Proof.
  revert errorList st. induction services as [|s rest IH]; intros errorList st.
  - cbn. split; [done|]. done.
  - cbn [configureServicesFrom map].
    destruct (configureService_invocations s st) as [Hinv Hflag].
    destruct (outcome (configureService s st)) as [err|e|e] eqn:Ho.
    + rewrite (bind_Returned _ _ _ _ Ho). cbn [after outcome final events].
      rewrite invocations_app, Hinv. cbn [app].
      match goal with |- context [configureServicesFrom ?l rest ?s1] =>
        destruct (IH l s1) as (Hp & Hr & Hf) end.
      split; [by apply prefix_cons|].
      split; [intros Hret; by rewrite (Hr Hret)|]. by rewrite Hf.
    + rewrite (bind_Panicked _ _ _ _ Ho). cbn [outcome final events].
      rewrite Hinv. split; [apply prefix_cons, prefix_nil|].
      split; [by intros [? ?]|done].
    + rewrite (bind_Exited _ _ _ _ Ho). cbn [outcome final events].
      rewrite Hinv. split; [apply prefix_cons, prefix_nil|].
      split; [by intros [? ?]|done].
Qed.

(** The first service of the list is always attempted. *)
Lemma configureServices_first (s : Service) (rest : Services) (st : State Env) :
  [ConfigureService s]
    `prefix_of` invocations (events (configureServices (s :: rest) st)).
Proof.
  unfold configureServices. cbn [configureServicesFrom].
  destruct (configureService_invocations s st) as [Hinv _].
  destruct (outcome (configureService s st)) as [err|e|e] eqn:Ho.
  - rewrite (bind_Returned _ _ _ _ Ho). cbn [after events].
    rewrite invocations_app, Hinv. by apply prefix_app_r.
  - rewrite (bind_Panicked _ _ _ _ Ho). cbn [events]. by rewrite Hinv.
  - rewrite (bind_Exited _ _ _ _ Ho). cbn [events]. by rewrite Hinv.
Qed.

Lemma typeOf_exists (v : JSON) : ValueType_eqb (typeOf v) NotExist = false.
Proof. by destruct v. Qed.

Lemma dial_target_zero : "localhost:" +:+ pretty 0%Z = "localhost:0".
Proof. reflexivity. Qed.

(** The container loop over a listing in two parts: when the deliveries
    to the first part have all succeeded, the loop goes on with the
    second part from where the first part ended. *)
Lemma configureContainers_app (service : Service) (before rest : list Container)
    (st : State Env) :
  outcome (configureContainers service before st) = Returned None ->
  configureContainers service (before ++ rest) st
  = after (events (configureContainers service before st))
      (configureContainers service rest
         (final (configureContainers service before st))).
Proof.
  revert st. induction before as [|c before IH]; intros st.
  - intros _. cbn [app configureContainers ret events final]. by rewrite after_nil.
  - cbn [configureContainers app]. rewrite !call_bind.
    destruct (consul_KVList _ (env st)) as [[kvs [e|]] e1]; cbn [fst snd]; [done|].
    destruct (ConsulKVsToJSON kvs) as [m [e|]]; [done|].
    destruct (jsonparser_Get m _) as [[v ty] [e|]]; [done|].
    assert (Hlog : forall st' : State Env,
      (if ValueType_eqb ty NotExist then log_Println "invalid JSON" else ret tt) st'
      = {| outcome := Returned tt; final := st';
           events := if ValueType_eqb ty NotExist
                     then [EvLog "invalid JSON"] else [] |}).
    { intros st'. by destruct (ValueType_eqb ty NotExist). }
    rewrite !(bind_Returned _ _ _ tt) by by rewrite Hlog.
    rewrite !Hlog. cbn [final events]. rewrite !call_bind. cbn [env].
    match goal with |- context [grpc_Dial ?t ?e] =>
      destruct (grpc_Dial t e) as [[e'|] e2] end; cbn [fst snd]; [done|].
    rewrite !call_bind. cbn [env].
    match goal with |- context [manager_Configure ?t ?c ?e] =>
      destruct (manager_Configure t c e) as [[e'|] e3] end; cbn [fst snd]; [done|].
    cbn [after outcome events final]. intros Hret.
    rewrite (IH _ Hret). unfold after. cbn [outcome final events].
    by rewrite <- !app_assoc.
Qed.

(** C7, as the code has it.  A container without a mapping of internal
    port 50052 is not skipped, wherever it stands in the listing: once
    the deliveries to the containers listed before it have succeeded,
    and the store read and the decoding of the service's document have
    succeeded for it, [configureService] dials localhost:0 (the zero
    value of the port variable), sends the configure call there when the
    dial succeeds, and returns the error of that call when it fails. *)
Theorem configure_dials_port_zero (service : Service) (st : State Env)
    (before : list Container) (c : Container) (later : list Container)
    (e1 e2 : Env) (kvs : KVPairs) (m : Document) (v : JSON) :
  (forall p, p ∈ Ports c -> PrivatePort p <> 50052%Z) ->
  docker_NewEnvClient (env st) = None ->
  docker_ContainerList [("label", managedLabel); ("name", containerName service)]
                       (env st) = ((before ++ c :: later, None), e1) ->
  consul_NewClient e1 = None ->
  let earlier :=
    configureContainers service before
      {| env := e1; HandlingServices := HandlingServices st |} in
  outcome earlier = Returned None ->
  consul_KVList ("instances/" +:+ InstanceID +:+ "/services/" +:+ service)
                (env (final earlier))
  = ((kvs, None), e2) ->
  ConsulKVsToJSON kvs = (m, None) ->
  getPath (JObj m) ["instances"; InstanceID; "services"; service] = Some v ->
  let r := configureService service st in
  let dial := grpc_Dial "localhost:0" e2 in
  let rpc := manager_Configure "localhost:0" (json_raw v) dial.2 in
  let reached :=
    [EvInvoke (ConfigureService service);
     EvContainerList [("label", managedLabel); ("name", containerName service)]]
    ++ events earlier
    ++ [EvKVList ("instances/" +:+ InstanceID +:+ "/services/" +:+ service);
        EvDial "localhost:0"] in
  reached `prefix_of` events r
  /\ (dial.1 = None ->
      (reached ++ [EvConfigure "localhost:0" (json_raw v)]) `prefix_of` events r
      /\ forall e, rpc.1 = Some e -> outcome r = Returned (Some e)).
Proof.
  intros Hports Hcli Hlist Hconsul earlier Hearlier Hkv Hdec Hpath. cbv zeta.
  unfold configureService. rewrite emit_bind, ask_bind, after_nil, Hcli.
  rewrite call_bind, Hlist. cbn [fst snd].
  rewrite ask_bind, after_nil. cbn [env]. rewrite Hconsul.
  rewrite (configureContainers_app service before (c :: later) _ Hearlier).
  fold earlier. cbn [configureContainers]. rewrite call_bind.
  rewrite Hkv. cbn [fst snd]. rewrite Hdec.
  unfold jsonparser_Get. rewrite Hpath.
  rewrite typeOf_exists.
  rewrite (bind_Returned (ret tt) _ _ tt eq_refl).
  cbn [ret events final]. rewrite after_nil.
  rewrite (controlPort_unpublished _ Hports), dial_target_zero.
  rewrite call_bind. cbn [env from_option].
  destruct (grpc_Dial "localhost:0" e2) as [[derr|] e3]; cbn [fst snd].
  - split; [|discriminate]. cbn [after events outcome log_Fatal].
    exists [EvLog ("fail to dial: " +:+ derr)]. cbn. by rewrite <- !app_assoc.
  - rewrite call_bind. cbn [env].
    destruct (manager_Configure "localhost:0" (json_raw v) e3) as [[cerr|] e4];
      cbn [fst snd after events outcome ret].
    + split.
      * exists [EvConfigure "localhost:0" (json_raw v)]. cbn.
        by rewrite <- !app_assoc.
      * intros _. split; [|by intros e [= ->]].
        exists []. cbn. by rewrite <- !app_assoc, app_nil_r.
    + split.
      * eexists. cbn. rewrite <- !app_assoc. cbn. reflexivity.
      * intros _. split; [|discriminate].
        eexists. cbn. rewrite <- !app_assoc. cbn. reflexivity.
Qed.
End ConfiguratorFacts.

(** ** The configuration handler *)

Section HandlerFacts.
Context {Env : Type} `{!Runtime Env} `{!Config}.

Lemma incoming_keys_from (acc : Services) (servicesMap : Document) :
  foldl (fun acc kv => acc ++ [kv.1]) acc servicesMap
  = acc ++ map fst servicesMap.
Proof.
  revert acc. induction servicesMap as [|kv sm IH]; intros acc; simpl.
  - by rewrite app_nil_r.
  - by rewrite IH, <- app_assoc.
Qed.

Lemma incoming_keys (servicesMap : Document) :
  foldl (fun acc kv => acc ++ [kv.1]) [] servicesMap = map fst servicesMap.
Proof. apply incoming_keys_from. Qed.

(** The chain of type assertions finds what the path lookup finds. *)
Lemma servicesMapOf_getPath (m : Document) :
  servicesMapOf m = typeAssertMap (getPath (JObj m) servicesPath).
Proof.
  unfold servicesMapOf, servicesPath. cbn [getPath].
  destruct (lookupField m "instances") as [[s|instances]|]; [done| |done].
  cbn [typeAssertMap mbind option_bind].
  destruct (lookupField instances InstanceID) as [[s|instance]|]; [done| |done].
  cbn [typeAssertMap mbind option_bind].
  by destruct (lookupField instance "services") as [[s|services]|].
Qed.

(** The handler after a successful decoding, by what the document holds
    at the services path. *)
Lemma ConfigHandler_run (kvs : KVPairs) (m : Document) (st : State Env) :
  ConsulKVsToJSON kvs = (m, None) ->
  let st0 := {| env := env st; HandlingServices := true |} in
  ConfigHandler kvs st
  = match getPath (JObj m) servicesPath with
    | None => ensureServices [] st0
    | Some (JStr _) =>
        {| outcome :=
             Panicked "interface conversion: interface {} is string, not map[string]interface {}";
           final := st0; events := [] |}
    | Some (JObj servicesMap) =>
        (ensureServices (map fst servicesMap) ;;
         let* (localServices, err) := getLocalServices in
         match err with
         | Some e => log_Fatal e
         | None =>
             configureServices localServices ;;
             set_HandlingServices false
         end) st0
    end.
Proof.
  intros Hdec. cbv zeta. unfold ConfigHandler.
  rewrite (bind_Returned (set_HandlingServices true) _ st tt eq_refl).
  cbn [set_HandlingServices events final]. rewrite after_nil.
  rewrite Hdec. unfold jsonparser_Get.
  pose proof (servicesMapOf_getPath m) as Hsm. unfold servicesPath in *.
  destruct (getPath (JObj m) ["instances"; InstanceID; "services"])
    as [[s|servicesMap]|]; cbn [typeOf ValueType_eqb typeAssertMap] in *.
  - by rewrite Hsm.
  - rewrite Hsm. by rewrite incoming_keys.
  - done.
Qed.

Lemma ensureServices_flag (incomingServices : Services) (st : State Env) :
  HandlingServices (final (ensureServices incomingServices st))
  = HandlingServices st.
Proof.
  pose proof (getLocalServices_flag st) as Hflag.
  destruct (outcome (getLocalServices st)) as [[l [e|]]|e|e] eqn:Ho.
  - unfold ensureServices. by rewrite (bind_Returned _ _ _ _ Ho).
  - by destruct (ensureServices_invocations incomingServices l st Ho) as (_ & _ & ?).
  - unfold ensureServices. by rewrite (bind_Panicked _ _ _ _ Ho).
  - unfold ensureServices. by rewrite (bind_Exited _ _ _ _ Ho).
Qed.

(** A pass invokes the lifecycle manager only: no configure call. *)
Lemma ensureServices_configured (incomingServices : Services) (st : State Env) :
  configured (events (ensureServices incomingServices st)) = [].
Proof.
  unfold configured.
  destruct (outcome (getLocalServices st)) as [[l [e|]]|e|e] eqn:Ho.
  1,3,4: rewrite ensureServices_no_listing;
           [done | intros l'; rewrite Ho; congruence].
  destruct (ensureServices_invocations incomingServices l st Ho)
    as ([k Hk] & _ & _).
  assert (Hall : omap (fun c => match c with
                                | ConfigureService s => Some s
                                | _ => None
                                end)
                   (map StartService (leadingAbsent l incomingServices)
                    ++ map StopService (leadingAbsent incomingServices l)) = []).
  { rewrite omap_app.
    generalize (leadingAbsent l incomingServices) as l1.
    generalize (leadingAbsent incomingServices l) as l2.
    intros l2 l1. induction l1 as [|? ? IH]; [|exact IH].
    induction l2 as [|? ? IH]; [done|exact IH]. }
  rewrite Hk, omap_app in Hall. by apply app_eq_nil in Hall as [? _].
Qed.

Lemma omap_prefix {A B} (f : A -> option B) (l1 l2 : list A) :
  l1 `prefix_of` l2 -> omap f l1 `prefix_of` omap f l2.
Proof. intros [k ->]. rewrite omap_app. by apply prefix_app_r. Qed.

Lemma stopped_stops (l : Services) :
  omap (fun c => match c with StopService s => Some s | _ => None end)
       (map StopService l) = l.
Proof. induction l as [|x l IH]; [done|]. cbn. by rewrite IH. Qed.

Lemma started_stops (l : Services) :
  omap (fun c => match c with StartService s => Some s | _ => None end)
       (map StopService l) = [].
Proof. induction l as [|x l IH]; [done|]. exact IH. Qed.

Lemma getLocalServices_ok (st : State Env) :
  docker_NewEnvClient (env st) = None ->
  (docker_ContainerList [("label", managedLabel)] (env st)).1.2 = None ->
  outcome (getLocalServices st) = Returned (actualServices (env st), None).
Proof.
  intros Hcli Hlist. pose proof (getLocalServices_run st) as Hrun.
  cbv zeta in Hrun. rewrite Hcli, Hlist in Hrun. by rewrite Hrun.
Qed.

(** C3, as the code has it.  A listing whose decoded document has
    nothing at instances/<InstanceID>/services is handled as an empty
    desired set: the handler runs one reconciliation pass that starts
    nothing and hands the services the runtime reports to [stopService],
    in order; it does not panic, and with a runtime whose listing does
    not fail it returns after invoking [stopService] for every one of
    them.  Whether their containers stop is not part of the statement. *)
Theorem missing_subtree_stops_all (kvs : KVPairs) (m : Document) (st : State Env) :
  ConsulKVsToJSON kvs = (m, None) ->
  getPath (JObj m) ["instances"; InstanceID; "services"] = None ->
  docker_NewEnvClient (env st) = None ->
  (docker_ContainerList [("label", managedLabel)] (env st)).1.2 = None ->
  let r := ConfigHandler kvs st in
  let st0 := {| env := env st; HandlingServices := true |} in
  r = ensureServices [] st0
  /\ started (events r) = []
  /\ stopped (events r) `prefix_of` actualServices (env st)
  /\ (forall e, outcome r <> Panicked e)
  /\ (outcome r = Returned tt -> stopped (events r) = actualServices (env st))
  /\ (listing_ok ->
      outcome r = Returned tt /\ stopped (events r) = actualServices (env st)).
Proof.
  intros Hdec Hpath Hcli Hlist. cbv zeta.
  rewrite (ConfigHandler_run kvs m st Hdec). cbv zeta.
  fold servicesPath in Hpath. rewrite Hpath.
  set (st0 := {| env := env st; HandlingServices := true |}).
  pose proof (getLocalServices_ok st0 Hcli Hlist) as Ho.
  change (env st0) with (env st) in Ho.
  set (actual := actualServices (env st)) in *.
  destruct (ensureServices_invocations [] actual st0 Ho) as (Hp & Hr & _).
  cbn [leadingAbsent map app] in Hp, Hr. rewrite leadingAbsent_all in Hp, Hr.
  assert (Hstarted : started (events (ensureServices [] st0)) = []).
  { unfold started. apply (omap_prefix
      (fun c => match c with StartService s => Some s | _ => None end)) in Hp.
    rewrite started_stops in Hp. by apply prefix_nil_inv in Hp. }
  assert (Hprefix : stopped (events (ensureServices [] st0)) `prefix_of` actual).
  { unfold stopped. apply (omap_prefix
      (fun c => match c with StopService s => Some s | _ => None end)) in Hp.
    by rewrite stopped_stops in Hp. }
  assert (Hall : outcome (ensureServices [] st0) = Returned tt ->
                 stopped (events (ensureServices [] st0)) = actual).
  { intros Hret. unfold stopped. by rewrite (Hr Hret), stopped_stops. }
  split; [done|]. split; [done|]. split; [done|]. split; [|split; [done|]].
  - intros e. rewrite (ensureServices_run _ _ _ Ho).
    cbn [after outcome startMissing]. unfold bind at 1. cbn [ret outcome final].
    cbn [after outcome]. clear. 
    generalize (final (getLocalServices st0)) as st1.
    induction actual as [|x rest IH]; intros st1; [done|].
    cbn [stopExtra]. change (existsIn x []) with false. cbn iota.
    pose proof (stopService_run x st1) as Hrun. cbv zeta in Hrun.
    destruct (outcome (stopService x st1)) as [err|e'|e'] eqn:Hos.
    + rewrite (bind_Returned _ _ _ _ Hos).
      rewrite (bind_Returned _ _ _ tt) by by rewrite logged_run.
      cbn [after outcome]. apply IH.
    + rewrite Hrun in Hos. cbn [after outcome] in Hos.
      destruct (docker_NewEnvClient (env st1)); [discriminate|].
      by destruct (docker_ContainerList _ (env st1)) as [[cs [e''|]] e1].
    + by rewrite (bind_Exited _ _ _ _ Hos).
  - intros Hok.
    assert (Hret : outcome (ensureServices [] st0) = Returned tt).
    { rewrite (ensureServices_run _ _ _ Ho).
      cbn [after outcome startMissing]. unfold bind at 1. cbn [ret outcome final].
      cbn [after outcome]. by apply stopExtra_returns. }
    split; [done|]. by apply Hall.
Qed.

Lemma configured_app (a b : list Event) :
  configured (a ++ b) = configured a ++ configured b.
Proof. unfold configured. by rewrite invocations_app, omap_app. Qed.

Lemma configured_configures (l : Services) :
  omap (fun c => match c with ConfigureService s => Some s | _ => None end)
       (map ConfigureService l) = l.
Proof. induction l as [|x l IH]; [done|]. cbn. by rewrite IH. Qed.

(** On the absent-subtree path the flag set on entry is still set when
    the handler is done. *)
Lemma handler_absent_flag (kvs : KVPairs) (m : Document) (st : State Env) :
  ConsulKVsToJSON kvs = (m, None) ->
  getPath (JObj m) servicesPath = None ->
  HandlingServices (final (ConfigHandler kvs st)) = true.
Proof.
  intros Hdec Hpath. rewrite (ConfigHandler_run kvs m st Hdec). cbv zeta.
  rewrite Hpath. by rewrite ensureServices_flag.
Qed.

(** C8, as the code has it.  After a successful decoding the handler
    does one of three things.  With the services subtree present (a
    map), and once reconciliation has returned and the re-listing has
    succeeded, its run is the pass, the re-listing and the batch of
    configure calls: [configureService] is invoked for the services of
    the post-reconciliation list in order, for all of them when the
    handler returns and for the first of them in any case, whether or
    not the pass started or stopped anything.  With the subtree absent
    the run is the reconciliation pass alone: no re-listing and no
    configure call follow it.  With a string at the path the handler
    panics at once. *)
Theorem handler_configures_when_present (kvs : KVPairs) (m : Document)
    (st : State Env) :
  ConsulKVsToJSON kvs = (m, None) ->
  let r := ConfigHandler kvs st in
  let st0 := {| env := env st; HandlingServices := true |} in
  match getPath (JObj m) servicesPath with
  | None =>
      r = ensureServices [] st0 /\ configured (events r) = []
  | Some (JStr _) =>
      (exists e, outcome r = Panicked e) /\ events r = []
  | Some (JObj servicesMap) =>
      let pass := ensureServices (map fst servicesMap) st0 in
      let relist := getLocalServices (final pass) in
      forall localServices,
        outcome pass = Returned tt ->
        outcome relist = Returned (localServices, None) ->
        events r
        = events pass ++ events relist
          ++ events (configureServices localServices (final relist))
        /\ configured (events r) `prefix_of` localServices
        /\ (outcome r = Returned tt -> configured (events r) = localServices)
        /\ (forall s rest, localServices = s :: rest ->
                           [s] `prefix_of` configured (events r))
  end.
Proof.
  intros Hdec. cbv zeta. rewrite (ConfigHandler_run kvs m st Hdec). cbv zeta.
  set (st0 := {| env := env st; HandlingServices := true |}).
  destruct (getPath (JObj m) servicesPath) as [[s|servicesMap]|].
  - split; [by eexists|done].
  - intros L Hpass Hrelist.
    set (pass := ensureServices (map fst servicesMap) st0) in *.
    set (relist := getLocalServices (final pass)) in *.
    rewrite (bind_Returned _ _ _ _ Hpass).
    rewrite (bind_Returned _ _ _ _ Hrelist).
    fold pass. fold relist. cbn iota.
    destruct (configureServicesFrom_invocations [] L (final relist))
      as (Hp & Hr & _).
    fold (configureServices L) in Hp, Hr.
    set (batch := configureServices L (final relist)) in *.
    assert (Hev : events
              (after (events pass)
                 (after (events relist)
                    ((configureServices L ;; set_HandlingServices false)
                       (final relist))))
            = events pass ++ events relist ++ events batch).
    { cbn [after events]. do 2 f_equal. fold batch.
      unfold bind. fold batch.
      destruct (outcome batch); cbn [after events set_HandlingServices];
        by rewrite ?app_nil_r. }
    assert (Hcfg : configured (events pass ++ events relist ++ events batch)
                   = omap (fun c => match c with
                                    | ConfigureService s => Some s
                                    | _ => None
                                    end) (invocations (events batch))).
    { rewrite !configured_app. unfold pass.
      rewrite ensureServices_configured.
      unfold configured at 1. unfold relist.
      by rewrite getLocalServices_invocations. }
    rewrite Hev, Hcfg. split; [done|].
    split; [|split].
    + apply (omap_prefix
               (fun c => match c with
                         | ConfigureService s => Some s
                         | _ => None
                         end)) in Hp.
      by rewrite configured_configures in Hp.
    + intros Hret. rewrite Hr; [apply configured_configures|].
      cbn [after outcome] in Hret. unfold bind in Hret. fold batch in Hret.
      destruct (outcome batch) as [errs|e|e]; [by eexists|done|done].
    + intros s rest ->.
      apply (omap_prefix
               (fun c => match c with
                         | ConfigureService s => Some s
                         | _ => None
                         end) [ConfigureService s]).
      apply configureServices_first.
  - split; [done|]. apply ensureServices_configured.
Qed.
End HandlerFacts.

(** ** Scenarios on the simulated node *)

Section Scenarios.
Import Sim.

Lemma sim_honours_label_filter : honours_label_filter (Env := Node).
Proof.
  intros args n c l Hc Hl. cbn in Hc.
  apply list_elem_of_In, filter_In in Hc as [_ Hmatch].
  apply list_elem_of_In in Hl.
  unfold matchesAll in Hmatch. rewrite forallb_forall in Hmatch.
  specialize (Hmatch _ Hl). unfold matchesArg in Hmatch. cbn in Hmatch.
  by apply bool_decide_eq_true in Hmatch.
Qed.

Lemma sim_listing_ok : listing_ok (Env := Node).
Proof. by intros args n. Qed.

(** C1 fails on the code.  With LB and DB running and only LB desired,
    DB is in actual minus desired, yet the pass returns without a single
    stop call: the second loop ends at LB, its first element.  With LB
    running and LB and DB desired, DB is in desired minus actual, yet
    the pass makes no start call: the first loop ends at LB. *)
Theorem reconcile_breaks_on_first_match :
  let both := idle (node [managed "LB" controlPorts; managed "DB" controlPorts]
                         wantsLB) in
  let one := idle (node [managed "LB" controlPorts] wantsLB) in
  (actualServices (env both) = ["LB"; "DB"]
   /\ difference ["LB"; "DB"] ["LB"] = ["DB"]
   /\ outcome (ensureServices ["LB"] both) = Returned tt
   /\ stopped (events (ensureServices ["LB"] both)) = [])
  /\ (actualServices (env one) = ["LB"]
      /\ outcome (ensureServices ["LB"; "DB"] one) = Returned tt
      /\ started (events (ensureServices ["LB"; "DB"] one)) = []).
Proof. vm_compute. repeat split. Qed.

(** C9 fails on the code.  On the absent-subtree path the handler
    returns with the flag still set; on the path with a services
    subtree it returns with the flag cleared. *)
Theorem handler_leaves_flag_set :
  let st := idle (node [managed "LB" controlPorts] []) in
  let st' := idle (node [managed "LB" controlPorts] wantsLB) in
  HandlingServices st = false
  /\ outcome (ConfigHandler [] st) = Returned tt
  /\ HandlingServices (final (ConfigHandler [] st)) = true
  /\ outcome (ConfigHandler wantsLB st') = Returned tt
  /\ HandlingServices (final (ConfigHandler wantsLB st')) = false.
Proof. vm_compute. repeat split. Qed.

(** C7 as stated fails: a managed LB container that publishes no port
    is not skipped; the configure call goes to localhost:0 and its
    failure is returned. *)
Lemma configure_skip_counterexample :
  let c := managed "LB" [] in
  let r := configureService "LB" (idle (node [c] wantsLB)) in
  (forall p, p ∈ Ports c -> PrivatePort p <> 50052%Z)
  /\ ~ ((forall target config, EvConfigure target config ∉ events r)
        /\ outcome r = Returned None).
Proof.
  cbv zeta. split.
  - intros p Hp. by apply elem_of_nil in Hp.
  - intros [_ Hret]. vm_compute in Hret. discriminate.
Qed.

(** C8 as stated fails: with the services subtree absent and an LB
    container that survives the stop, the handler returns after the
    reconciliation pass; LB is still reported by the runtime, yet the
    run has no second listing and no configure call. *)
Lemma handler_absent_counterexample :
  let r := ConfigHandler [] (idle (stuck [managed "LB" controlPorts] [])) in
  outcome r = Returned tt
  /\ actualServices (env (final r)) = ["LB"]
  /\ relistings (events r) = 1
  /\ configured (events r) = []
  /\ configured (events r) <> actualServices (env (final r)).
Proof. vm_compute. repeat split. discriminate. Qed.

(** C3 as stated fails in its last part: on the absent-subtree path
    [stopService] is invoked for every reported service, yet a managed
    container can outlive the pass.  An LB container that refuses to
    stop gets its stop call, whose error is dropped; an LB container
    under another name is not found by the name filter of [stopService]
    and gets no stop call at all.  Both are still running when the
    handler has returned. *)
Lemma missing_subtree_container_survives :
  let stubbornLB := managed "LB" controlPorts in
  let renamedLB :=
    {| ID := "id-legacy-lb"; Names := ["/legacy-lb"];
       Image := "quay.io/opencopilot/haproxy-manager";
       Labels := <[managedLabel := ""]> (<[serviceLabel := "LB"]> ∅);
       Ports := controlPorts |} in
  let r1 := ConfigHandler [] (idle (stuck [stubbornLB] [])) in
  let r2 := ConfigHandler [] (idle (node [renamedLB] [])) in
  (outcome r1 = Returned tt
   /\ stopped (events r1) = ["LB"]
   /\ EvContainerStop (ID stubbornLB) ∈ events r1
   /\ running (env (final r1)) = [stubbornLB])
  /\ (outcome r2 = Returned tt
      /\ stopped (events r2) = ["LB"]
      /\ (forall id, EvContainerStop id ∉ events r2)
      /\ running (env (final r2)) = [renamedLB]).
Proof.
  cbv zeta. split.
  - split; [by vm_compute|]. split; [by vm_compute|]. split; [|by vm_compute].
    vm_compute. do 4 right. left.
  - split; [by vm_compute|]. split; [by vm_compute|]. split; [|by vm_compute].
    intros id Hin. vm_compute in Hin.
    repeat (apply elem_of_cons in Hin as [Hin|Hin]; [discriminate|]).
    by apply elem_of_nil in Hin.
Qed.

(** The converged scenario: LB desired and running, on a node whose
    listing leaves the world as it is. *)
Lemma reconcile_converged_idle_witness :
  let st := idle (node [managed "LB" controlPorts] wantsLB) in
  outcome (getLocalServices st) = Returned (["LB"], None)
  /\ final (getLocalServices st) = st
  /\ (outcome (ensureServices ["LB"] st) = Returned tt
      /\ events (ensureServices ["LB"] st) = events (getLocalServices st)
      /\ started (events (ensureServices ["LB"] st)) = []
      /\ stopped (events (ensureServices ["LB"] st)) = [])
  /\ (forall n,
        outcome (passes n ["LB"] st) = Returned tt
        /\ invocations (events (passes n ["LB"] st)) = []
        /\ final (passes n ["LB"] st) = st).
Proof.
  cbv zeta. split; [by vm_compute|]. split; [by vm_compute|].
  destruct (reconcile_converged_idle ["LB"] ["LB"]
              (idle (node [managed "LB" controlPorts] wantsLB)))
    as [Hone Hmany]; [done | by vm_compute |].
  split; [exact Hone|]. apply Hmany. by vm_compute.
Defined.

(** An empty listing on a node that runs LB and DB. *)
Lemma missing_subtree_stops_all_witness :
  let st := idle (node [managed "LB" controlPorts; managed "DB" []] []) in
  let r := ConfigHandler [] st in
  actualServices (env st) = ["LB"; "DB"]
  /\ started (events r) = []
  /\ outcome r = Returned tt
  /\ stopped (events r) = actualServices (env st).
Proof.
  cbv zeta. split; [by vm_compute|].
  destruct (missing_subtree_stops_all []
              (ConsulKVsToJSON (Runtime := runtime) []).1
              (idle (node [managed "LB" controlPorts; managed "DB" []] [])))
    as (_ & Hstarted & _ & _ & _ & Hall);
    [by vm_compute | by vm_compute | by vm_compute | by vm_compute |].
  split; [exact Hstarted|]. exact (Hall sim_listing_ok).
Defined.

(** A node that also runs a foreign container and a managed container
    without service-manager label. *)
Lemma unmanaged_containers_ignored_witness :
  let st := idle (node [managed "LB" controlPorts; foreign "db";
                        unlabelled "sidecar"] []) in
  let listed := (docker_ContainerList [("label", managedLabel)] (env st)).1.1 in
  honours_label_filter (Env := Node)
  /\ (forall localServices err s,
         outcome (getLocalServices st) = Returned (localServices, err) ->
         s ∈ localServices ->
         exists c, c ∈ listed
                   /\ is_Some (Labels c !! managedLabel)
                   /\ Labels c !! serviceLabel = Some s)
  /\ (forall incomingServices s,
         s ∈ stopped (events (ensureServices incomingServices st)) ->
         exists c, c ∈ listed
                   /\ is_Some (Labels c !! managedLabel)
                   /\ Labels c !! serviceLabel = Some s).
Proof.
  cbv zeta. split; [exact sim_honours_label_filter|].
  apply (unmanaged_containers_ignored
           (idle (node [managed "LB" controlPorts; foreign "db";
                        unlabelled "sidecar"] []))).
  exact sim_honours_label_filter.
Defined.

(** A name outside the registry. *)
Lemma startService_unsupported_witness :
  let st := idle (node [] []) in
  let r := startService "DB" st in
  "DB" <> "LB"
  /\ outcome r = Returned (Some "Invalid service specified")
  /\ final r = st
  /\ events r = [EvInvoke (StartService "DB"); EvLog ("adding service: " +:+ "DB")].
Proof.
  cbv zeta. split; [discriminate|].
  destruct (startService_unsupported "DB" (idle (node [] [])))
    as (_ & Hinvalid & Hfinal & Hevents); [discriminate|].
  split; [apply Hinvalid; by vm_compute|]. split; [exact Hfinal|exact Hevents].
Defined.

(** The start scenario on an empty node. *)
Lemma start_LB_scenario_witness :
  let st := idle (node [] wantsLB) in
  let r := ensureServices ["LB"] st in
  outcome (getLocalServices st) = Returned ([], None)
  /\ invocations (events r) = [StartService "LB"]
  /\ length (creations (events r)) = 1.
Proof.
  cbv zeta. split; [by vm_compute|].
  destruct (start_LB_scenario (idle (node [] wantsLB)))
    as (Hinv & _ & _ & Hone); [by vm_compute|].
  split; [exact Hinv|]. apply Hone; by vm_compute.
Defined.

(** Two containers match the name filter of LB; the second one
    publishes no port. *)
Lemma configure_dials_port_zero_witness :
  let first := managed "LB" controlPorts in
  let c := managed "LB2" [] in
  let n := node [first; c] wantsLB in
  let r := configureService "LB" (idle n) in
  (forall p, p ∈ Ports c -> PrivatePort p <> 50052%Z)
  /\ ([EvInvoke (ConfigureService "LB");
       EvContainerList [("label", managedLabel); ("name", containerName "LB")]]
      ++ events (configureContainers "LB" [first] (idle n))
      ++ [EvKVList ("instances/" +:+ InstanceID +:+ "/services/" +:+ "LB");
          EvDial "localhost:0"]
      ++ [EvConfigure "localhost:0" (json_raw configLB)]) `prefix_of` events r
  /\ EvConfigure "localhost:32768" (json_raw configLB)
     ∈ events (configureContainers "LB" [first] (idle n))
  /\ outcome r = Returned (Some "connection refused").
Proof.
  cbv zeta.
  assert (Hports : forall p, p ∈ Ports (managed "LB2" []) ->
                             PrivatePort p <> 50052%Z).
  { intros p Hp. by apply elem_of_nil in Hp. }
  split; [exact Hports|].
  pose (n := node [managed "LB" controlPorts; managed "LB2" []] wantsLB).
  pose (e2 := env (final (configureContainers "LB" [managed "LB" controlPorts]
                            (idle n)))).
  destruct (configure_dials_port_zero "LB" (idle n)
              [managed "LB" controlPorts] (managed "LB2" []) []
              n e2 wantsLB (ConsulKVsToJSON (Runtime := runtime) wantsLB).1
              configLB Hports)
    as (_ & Hrpc); [by vm_compute ..|].
  destruct (Hrpc ltac:(by vm_compute)) as [Hsent Hfail].
  split; [|split].
  - rewrite <- !app_assoc in Hsent. exact Hsent.
  - vm_compute. do 2 right. left.
  - apply Hfail. by vm_compute.
Defined.

(** LB desired and running: nothing is started or stopped, and LB is
    configured. *)
Lemma handler_configures_when_present_witness :
  let st := idle (node [managed "LB" controlPorts] wantsLB) in
  let r := ConfigHandler wantsLB st in
  invocations (events (ensureServices ["LB"]
                         {| env := env st; HandlingServices := true |})) = []
  /\ outcome r = Returned tt
  /\ configured (events r) = ["LB"].
Proof.
  cbv zeta. split; [by vm_compute|]. split; [by vm_compute|].
  pose proof (handler_configures_when_present wantsLB
                (ConsulKVsToJSON (Runtime := runtime) wantsLB).1
                (idle (node [managed "LB" controlPorts] wantsLB))
                eq_refl) as Hpresent.
  cbv zeta in Hpresent.
  change (getPath _ servicesPath)
    with (Some (JObj [("LB", configLB)])) in Hpresent.
  cbn iota in Hpresent.
  destruct (Hpresent ["LB"]) as (_ & _ & Hall & _);
    [by vm_compute | by vm_compute |].
  apply Hall. by vm_compute.
Defined.

(** An LB container that refuses to stop. *)
Lemma stopService_always_nil_witness :
  let n := stuck [managed "LB" controlPorts] [] in
  let r := stopService "LB" (idle n) in
  (docker_ContainerStop (ID (managed "LB" controlPorts)) n).1
  = Some "cannot stop container"
  /\ outcome r = Returned None
  /\ events r = [EvInvoke (StopService "LB");
                 EvLog ("stopping service: " +:+ "LB");
                 EvContainerList [("label", managedLabel);
                                  ("name", containerName "LB")]]
                ++ map (fun c => EvContainerStop (ID c))
                       [managed "LB" controlPorts]
  /\ ([managed "LB" controlPorts] = [] -> env (final r) = n).
Proof.
  cbv zeta. split; [by vm_compute|].
  apply (stopService_always_nil "LB"
           (idle (stuck [managed "LB" controlPorts] []))
           [managed "LB" controlPorts]
           (stuck [managed "LB" controlPorts] []));
    by vm_compute.
Defined.
End Scenarios.

(** ** More on the reconciler *)

Section ReconcilerScope.
Context {Env : Type} `{!Runtime Env} `{!Config}.

Lemma leadingAbsent_disjoint (others l : Services) :
  (forall x, x ∈ l -> x ∉ others) -> leadingAbsent others l = l.
Proof.
  induction l as [|x l IH]; cbn [leadingAbsent]; [done|]. intros Hdis.
  rewrite bool_decide_eq_false_2 by (apply Hdis; left).
  rewrite IH; [done|]. intros y Hy. apply Hdis. by right.
Qed.

Lemma started_starts (l : Services) :
  omap (fun c => match c with StartService s => Some s | _ => None end)
       (map StartService l) = l.
Proof. induction l as [|x l IH]; [done|]. cbn. by rewrite IH. Qed.

Lemma stopped_starts (l : Services) :
  omap (fun c => match c with StopService s => Some s | _ => None end)
       (map StartService l) = [].
Proof. induction l as [|x l IH]; [done|]. exact IH. Qed.

(** Every service handed to [startService] by a pass is desired and was
    not reported by the listing. *)
Lemma ensureServices_started_elem (incomingServices : Services)
    (st : State Env) (s : Service) :
  s ∈ started (events (ensureServices incomingServices st)) ->
  s ∈ incomingServices /\ s ∉ actualServices (env st).
Proof.
  unfold started. intros Hin.
  destruct (outcome (getLocalServices st)) as [[l [e|]]|e|e] eqn:Ho.
  1,3,4: rewrite ensureServices_no_listing in Hin;
           [by apply elem_of_nil in Hin | intros l'; rewrite Ho; congruence].
  destruct (ensureServices_invocations incomingServices l st Ho)
    as (Hp & _ & _).
  apply (omap_prefix
           (fun c => match c with StartService s => Some s | _ => None end))
    in Hp.
  rewrite omap_app, started_starts, started_stops, app_nil_r in Hp.
  destruct Hp as [k Hk].
  assert (Hs : s ∈ leadingAbsent l incomingServices).
  { rewrite Hk. apply elem_of_app. by left. }
  apply leadingAbsent_elem in Hs as [Hd Hn].
  by rewrite <- (getLocalServices_actual st l Ho).
Qed.

(** X1. Whatever the runtime does, a pass only starts services that are
    desired and not reported as running, and only stops services that
    are reported as running and not desired. *)
Theorem reconcile_acts_within_difference (incomingServices : Services)
    (st : State Env) (s : Service) :
  (s ∈ started (events (ensureServices incomingServices st)) ->
   s ∈ incomingServices /\ s ∉ actualServices (env st))
  /\ (s ∈ stopped (events (ensureServices incomingServices st)) ->
      s ∈ actualServices (env st) /\ s ∉ incomingServices).
Proof.
  split.
  - apply ensureServices_started_elem.
  - apply ensureServices_stopped_elem.
Qed.

(** X2. When no desired service is running, a pass that returns has
    started every desired service and then stopped every running one, in
    list order and once per list entry. *)
Theorem reconcile_disjoint_converges (desired actual : Services)
    (st : State Env) :
  outcome (getLocalServices st) = Returned (actual, None) ->
  (forall s, s ∈ desired -> s ∉ actual) ->
  outcome (ensureServices desired st) = Returned tt ->
  invocations (events (ensureServices desired st))
  = map StartService desired ++ map StopService actual
  /\ started (events (ensureServices desired st)) = desired
  /\ stopped (events (ensureServices desired st)) = actual.
Proof.
  intros Ho Hdis Hret.
  destruct (ensureServices_invocations desired actual st Ho) as (_ & Hr & _).
  specialize (Hr Hret).
  rewrite (leadingAbsent_disjoint actual desired Hdis) in Hr.
  rewrite (leadingAbsent_disjoint desired actual) in Hr
    by (intros x Hx Hd; by apply (Hdis x)).
  split; [done|]. unfold started, stopped. rewrite Hr, !omap_app.
  rewrite started_starts, started_stops, stopped_starts, stopped_stops.
  by rewrite app_nil_r.
Qed.

(** X3. The loops give up at the first match: when the first desired
    service is running nothing at all is started, and when the first
    running service is desired nothing at all is stopped, whatever
    follows in the lists. *)
Theorem reconcile_first_match_blocks (desired actual : Services)
    (st : State Env) :
  outcome (getLocalServices st) = Returned (actual, None) ->
  (forall d rest, desired = d :: rest -> d ∈ actual ->
                  started (events (ensureServices desired st)) = [])
  /\ (forall a rest, actual = a :: rest -> a ∈ desired ->
                     stopped (events (ensureServices desired st)) = []).
Proof.
  intros Ho.
  destruct (ensureServices_invocations desired actual st Ho) as (Hp & _ & _).
  split.
  - intros d rest -> Hd. unfold started.
    apply (omap_prefix
             (fun c => match c with StartService s => Some s | _ => None end))
      in Hp.
    rewrite omap_app, started_starts, started_stops, app_nil_r in Hp.
    cbn [leadingAbsent] in Hp. rewrite bool_decide_eq_true_2 in Hp by done.
    by apply prefix_nil_inv in Hp.
  - intros a rest -> Ha. unfold stopped.
    apply (omap_prefix
             (fun c => match c with StopService s => Some s | _ => None end))
      in Hp.
    rewrite omap_app, stopped_starts, stopped_stops in Hp.
    cbn [leadingAbsent app] in Hp. rewrite bool_decide_eq_true_2 in Hp by done.
    by apply prefix_nil_inv in Hp.
Qed.

(** X4. A pass that cannot obtain the local listing panics before it
    touches a service.  After a failed client construction it logs the
    error and panics through [log.Panicln], so the panic value is the
    message followed by a newline, and no runtime call is made; after a
    failed listing the panic is the one [getLocalServices] raises through
    [log.Panic], with the bare message, after that one call. *)
Theorem reconcile_without_listing_panics (incomingServices : Services)
    (st : State Env) (e : error) :
  (docker_NewEnvClient (env st) = Some e ->
   ensureServices incomingServices st
   = {| outcome := Panicked (e +:+ newline); final := st; events := [EvLog e] |})
  /\ (docker_NewEnvClient (env st) = None ->
      (docker_ContainerList [("label", managedLabel)] (env st)).1.2 = Some e ->
      outcome (ensureServices incomingServices st) = Panicked e
      /\ events (ensureServices incomingServices st)
         = [EvContainerList [("label", managedLabel)]; EvLog e]
      /\ invocations (events (ensureServices incomingServices st)) = []
      /\ creations (events (ensureServices incomingServices st)) = []).
Proof.
  pose proof (getLocalServices_run st) as Hrun. cbv zeta in Hrun.
  unfold ensureServices. split.
  - intros Hcli. rewrite Hcli in Hrun.
    rewrite (bind_Returned _ _ _ (([] : Services), Some e)) by by rewrite Hrun.
    rewrite Hrun. done.
  - intros Hcli Hlist. rewrite Hcli, Hlist in Hrun.
    rewrite (bind_Panicked _ _ _ e) by by rewrite Hrun.
    rewrite Hrun. done.
Qed.

(** A start attempt for a name outside the registry. *)
Lemma startService_invalid_run (service : Service) (st : State Env) :
  service <> "LB" ->
  docker_NewEnvClient (env st) = None ->
  startService service st
  = {| outcome := Returned (Some "Invalid service specified"); final := st;
       events := [EvInvoke (StartService service);
                  EvLog ("adding service: " +:+ service)] |}.
Proof.
  intros Hne Hcli. unfold startService, log_Println.
  rewrite emit_bind, emit_bind, after_after, ask_bind, after_nil, Hcli.
  by rewrite (containerConfigFor_unsupported service Hne).
Qed.

(** X5. A failed start does not end the pass: on a node that runs no
    managed service, desired names outside the registry are each
    attempted in order, each failure is logged, and the pass returns
    without any runtime call beyond the listing. *)
Theorem reconcile_logs_failed_starts (desired : Services) (st : State Env) :
  outcome (getLocalServices st) = Returned ([], None) ->
  docker_NewEnvClient (env (final (getLocalServices st))) = None ->
  (forall s, s ∈ desired -> s <> "LB") ->
  ensureServices desired st
  = {| outcome := Returned tt;
       final := final (getLocalServices st);
       events := events (getLocalServices st)
                 ++ concat (map (fun s => [EvInvoke (StartService s);
                                           EvLog ("adding service: " +:+ s);
                                           EvLog "Invalid service specified"])
                                desired) |}.
Proof.
  intros Ho Hcli Hbad. rewrite (ensureServices_run _ _ _ Ho).
  set (st1 := final (getLocalServices st)) in *.
  assert (Hloop : startMissing [] desired st1
                  = {| outcome := Returned tt; final := st1;
                       events := concat (map (fun s =>
                                   [EvInvoke (StartService s);
                                    EvLog ("adding service: " +:+ s);
                                    EvLog "Invalid service specified"])
                                   desired) |}).
  { clear Ho. induction desired as [|s rest IH]; [done|].
    cbn [startMissing]. change (existsIn s []) with false. cbn iota.
    rewrite (bind_Returned _ _ _ (Some "Invalid service specified"))
      by (rewrite startService_invalid_run; [done|apply Hbad; left|done]).
    rewrite startService_invalid_run; [|apply Hbad; left|done].
    cbn [final events].
    rewrite (bind_Returned _ _ _ tt) by done.
    cbn [log_Println emit final events].
    rewrite IH by (intros x Hx; apply Hbad; by right).
    by cbn. }
  rewrite (bind_Returned _ _ _ tt) by by rewrite Hloop.
  rewrite Hloop. cbn [final events]. cbn [stopExtra ret after outcome final events].
  unfold after, ret. cbn [outcome final events]. by rewrite app_nil_r.
Qed.
End ReconcilerScope.

(** ** More on the lifecycle manager *)

Section LifecycleScope.
Context {Env : Type} `{!Runtime Env} `{!Config}.

(** [startService] for LB, by the answers of the runtime. *)
Lemma startService_LB_run (st : State Env) :
  docker_NewEnvClient (env st) = None ->
  let image := "quay.io/opencopilot/haproxy-manager" in
  let cfg := {| cfgImage := image;
                cfgLabels := <[managedLabel := ""]> (<[serviceLabel := "LB"]> ∅);
                cfgEnv := ["CONFIG_DIR=" +:+ ConfigDir;
                           "INSTANCE_ID=" +:+ InstanceID] |} in
  let host := {| AutoRemove := true; Privileged := true;
                 Binds := ["/var/run/docker.sock:/var/run/docker.sock";
                           ConfigDir +:+ ":" +:+ ConfigDir];
                 PublishAllPorts := true |} in
  let name := containerName "LB" in
  let pull := docker_ImagePull image (env st) in
  let read := ioutil_ReadAll image pull.2 in
  let create := docker_ContainerCreate cfg host name read.2 in
  let start := docker_ContainerStart create.1.1 create.2 in
  let at_ (e : Env) := {| env := e; HandlingServices := HandlingServices st |} in
  startService "LB" st
  = after [EvInvoke (StartService "LB"); EvLog ("adding service: " +:+ "LB");
           EvImagePull image]
      match pull.1 with
      | Some e => {| outcome := Returned (Some e); final := at_ pull.2; events := [] |}
      | None =>
          match read.1 with
          | Some e => {| outcome := Panicked e; final := at_ read.2;
                         events := [EvReadAll image; EvLog e] |}
          | None =>
              match create.1.2 with
              | Some e => {| outcome := Returned (Some e); final := at_ create.2;
                             events := [EvReadAll image;
                                        EvContainerCreate cfg host name] |}
              | None =>
                  {| outcome := Returned start.1; final := at_ start.2;
                     events := [EvReadAll image;
                                EvContainerCreate cfg host name;
                                EvContainerStart create.1.1] |}
              end
          end
      end.
Proof.
  intros Hcli. cbv zeta. unfold startService, log_Println.
  rewrite emit_bind, emit_bind, after_after, ask_bind, after_nil, Hcli.
  change (containerConfigFor "LB") with
    (Some {| cfgImage := "quay.io/opencopilot/haproxy-manager";
             cfgLabels := <[managedLabel := ""]> (<[serviceLabel := "LB"]> ∅);
             cfgEnv := [] |}).
  cbn [cfgImage cfgLabels]. rewrite call_bind.
  destruct (docker_ImagePull _ (env st)) as [[e|] e1]; cbn [fst snd]; [done|].
  rewrite call_bind. cbn [env].
  destruct (ioutil_ReadAll _ e1) as [[e|] e2]; cbn [fst snd]; [done|].
  rewrite call_bind. cbn [env].
  destruct (docker_ContainerCreate _ _ _ e2) as [[id [e|]] e3]; cbn [fst snd];
    [done|].
  rewrite call_bind. cbn [env].
  destruct (docker_ContainerStart id e3) as [[e|] e4]; cbn [fst snd]; done.
Qed.

(** X6. When every runtime call succeeds, [startService] for LB pulls
    the image, reads the pull stream, creates the container and starts
    the container whose identifier the create call returned, in this
    order, and returns nil. *)
Theorem startService_success_trace (st : State Env) (id : string)
    (e1 e2 e3 e4 : Env) :
  let image := "quay.io/opencopilot/haproxy-manager" in
  let cfg := {| cfgImage := image;
                cfgLabels := <[managedLabel := ""]> (<[serviceLabel := "LB"]> ∅);
                cfgEnv := ["CONFIG_DIR=" +:+ ConfigDir;
                           "INSTANCE_ID=" +:+ InstanceID] |} in
  let host := {| AutoRemove := true; Privileged := true;
                 Binds := ["/var/run/docker.sock:/var/run/docker.sock";
                           ConfigDir +:+ ":" +:+ ConfigDir];
                 PublishAllPorts := true |} in
  docker_NewEnvClient (env st) = None ->
  docker_ImagePull image (env st) = (None, e1) ->
  ioutil_ReadAll image e1 = (None, e2) ->
  docker_ContainerCreate cfg host (containerName "LB") e2 = ((id, None), e3) ->
  docker_ContainerStart id e3 = (None, e4) ->
  startService "LB" st
  = {| outcome := Returned None;
       final := {| env := e4; HandlingServices := HandlingServices st |};
       events := [EvInvoke (StartService "LB");
                  EvLog ("adding service: " +:+ "LB");
                  EvImagePull image; EvReadAll image;
                  EvContainerCreate cfg host (containerName "LB");
                  EvContainerStart id] |}.
Proof.
  cbv zeta. intros Hcli Hpull Hread Hcreate Hstart.
  rewrite (startService_LB_run st Hcli). cbv zeta.
  rewrite Hpull. cbn [fst snd]. rewrite Hread. cbn [fst snd].
  rewrite Hcreate. cbn [fst snd]. rewrite Hstart. done.
Qed.

(** X7. A failed image pull is returned to the caller, and nothing is
    read, created or started. *)
Theorem startService_pull_failure (st : State Env) (e : error) (e1 : Env) :
  docker_NewEnvClient (env st) = None ->
  docker_ImagePull "quay.io/opencopilot/haproxy-manager" (env st) = (Some e, e1) ->
  startService "LB" st
  = {| outcome := Returned (Some e);
       final := {| env := e1; HandlingServices := HandlingServices st |};
       events := [EvInvoke (StartService "LB");
                  EvLog ("adding service: " +:+ "LB");
                  EvImagePull "quay.io/opencopilot/haproxy-manager"] |}.
Proof.
  intros Hcli Hpull. rewrite (startService_LB_run st Hcli). cbv zeta.
  rewrite Hpull. done.
Qed.

(** X8. A failure while reading the pull stream is not returned: the
    function logs it and panics, and no container is created. *)
Theorem startService_read_failure_panics (st : State Env) (e : error)
    (e1 e2 : Env) :
  docker_NewEnvClient (env st) = None ->
  docker_ImagePull "quay.io/opencopilot/haproxy-manager" (env st) = (None, e1) ->
  ioutil_ReadAll "quay.io/opencopilot/haproxy-manager" e1 = (Some e, e2) ->
  outcome (startService "LB" st) = Panicked e
  /\ creations (events (startService "LB" st)) = []
  /\ events (startService "LB" st)
     = [EvInvoke (StartService "LB"); EvLog ("adding service: " +:+ "LB");
        EvImagePull "quay.io/opencopilot/haproxy-manager";
        EvReadAll "quay.io/opencopilot/haproxy-manager"; EvLog e].
Proof.
  intros Hcli Hpull Hread. rewrite (startService_LB_run st Hcli). cbv zeta.
  rewrite Hpull. cbn [fst snd]. rewrite Hread. done.
Qed.

(** X9. The error of a failed create call or of a failed start call is
    returned; after a failed create no start call is made. *)
Theorem startService_create_or_start_failure (st : State Env) (id : string)
    (cerr : option error) (e1 e2 e3 : Env) :
  let image := "quay.io/opencopilot/haproxy-manager" in
  let cfg := {| cfgImage := image;
                cfgLabels := <[managedLabel := ""]> (<[serviceLabel := "LB"]> ∅);
                cfgEnv := ["CONFIG_DIR=" +:+ ConfigDir;
                           "INSTANCE_ID=" +:+ InstanceID] |} in
  let host := {| AutoRemove := true; Privileged := true;
                 Binds := ["/var/run/docker.sock:/var/run/docker.sock";
                           ConfigDir +:+ ":" +:+ ConfigDir];
                 PublishAllPorts := true |} in
  docker_NewEnvClient (env st) = None ->
  docker_ImagePull image (env st) = (None, e1) ->
  ioutil_ReadAll image e1 = (None, e2) ->
  docker_ContainerCreate cfg host (containerName "LB") e2 = ((id, cerr), e3) ->
  match cerr with
  | Some e =>
      outcome (startService "LB" st) = Returned (Some e)
      /\ forall id', EvContainerStart id' ∉ events (startService "LB" st)
  | None =>
      outcome (startService "LB" st) = Returned (docker_ContainerStart id e3).1
      /\ EvContainerStart id ∈ events (startService "LB" st)
  end.
Proof.
  cbv zeta. intros Hcli Hpull Hread Hcreate.
  rewrite (startService_LB_run st Hcli). cbv zeta.
  rewrite Hpull. cbn [fst snd]. rewrite Hread. cbn [fst snd].
  rewrite Hcreate. cbn [fst snd]. destruct cerr as [e|].
  - split; [done|]. intros id' Hin. cbn in Hin.
    repeat (apply elem_of_cons in Hin as [Hin|Hin]; [discriminate|]).
    by apply elem_of_nil in Hin.
  - split; [done|]. cbn. do 5 right. left.
Qed.

(** X10. [stopService] gives up before any stop call when it cannot
    find its containers: a failed client construction is returned
    without a runtime call, and a failed listing ends the process. *)
Theorem stopService_failures (service : Service) (st : State Env) (e : error) :
  (docker_NewEnvClient (env st) = Some e ->
   stopService service st
   = {| outcome := Returned (Some e); final := st;
        events := [EvInvoke (StopService service);
                   EvLog ("stopping service: " +:+ service)] |})
  /\ (docker_NewEnvClient (env st) = None ->
      (docker_ContainerList [("label", managedLabel);
                             ("name", containerName service)] (env st)).1.2
      = Some e ->
      outcome (stopService service st) = Exited e
      /\ forall id, EvContainerStop id ∉ events (stopService service st)).
Proof.
  split.
  - intros Hcli. rewrite stopService_run. cbv zeta. rewrite Hcli.
    unfold after. cbn. done.
  - intros Hcli Hlist. rewrite stopService_run. cbv zeta. rewrite Hcli, Hlist.
    split; [done|]. intros id Hin. cbn in Hin.
    repeat (apply elem_of_cons in Hin as [Hin|Hin]; [discriminate|]).
    by apply elem_of_nil in Hin.
Qed.

(** X11. On a successful listing [getLocalServices] reports the
    service-manager label of every listed container that has one, in
    listing order and once per container (two containers of one service
    give two entries); containers without the label add nothing. *)
Theorem getLocalServices_reports_labels (st : State Env)
    (containers : list Container) (e1 : Env) :
  docker_NewEnvClient (env st) = None ->
  docker_ContainerList [("label", managedLabel)] (env st)
  = ((containers, None), e1) ->
  outcome (getLocalServices st)
  = Returned (omap (fun c => Labels c !! serviceLabel) containers, None)
  /\ env (final (getLocalServices st)) = e1
  /\ (forall localServices,
         outcome (getLocalServices st) = Returned (localServices, None) ->
         length localServices <= length containers).
Proof.
  intros Hcli Hlist. pose proof (getLocalServices_run st) as Hrun.
  cbv zeta in Hrun. rewrite Hcli, Hlist in Hrun. cbn [fst snd] in Hrun.
  rewrite Hrun. cbn [outcome final env].
  rewrite actualServices_labels, Hlist. cbn [fst snd].
  split; [done|]. split; [done|]. intros l [= <-].
  clear. induction containers as [|c cs IH]; [done|]. cbn.
  destruct (Labels c !! serviceLabel); cbn; lia.
Qed.
End LifecycleScope.

(** ** More on the configurator *)

Section ConfiguratorScope.
Context {Env : Type} `{!Runtime Env} `{!Config}.

(** X12. The control port is the published port of the last mapping of
    internal port 50052 in the container's port list: later mappings of
    the same internal port override earlier ones. *)
Theorem controlPort_last_mapping (before later : list Port) (p : Port) :
  PrivatePort p = 50052%Z ->
  (forall q, q ∈ later -> PrivatePort q <> 50052%Z) ->
  controlPort (before ++ p :: later) = PublicPort p.
Proof.
  intros Hp Hlater. unfold controlPort. rewrite foldl_app. cbn [foldl].
  rewrite Hp. cbn. by apply controlPort_from.
Qed.

(** [configureService] up to the delivery to the first listed container,
    when everything before the delivery succeeds. *)
Lemma configureService_first_run (service : Service) (st : State Env)
    (c : Container) (cs : list Container) (e1 e2 e3 : Env) (kvs : KVPairs)
    (m : Document) (v : JSON) :
  docker_NewEnvClient (env st) = None ->
  docker_ContainerList [("label", managedLabel); ("name", containerName service)]
                       (env st) = ((c :: cs, None), e1) ->
  consul_NewClient e1 = None ->
  consul_KVList ("instances/" +:+ InstanceID +:+ "/services/" +:+ service) e1
  = ((kvs, None), e2) ->
  ConsulKVsToJSON kvs = (m, None) ->
  getPath (JObj m) ["instances"; InstanceID; "services"; service] = Some v ->
  let target := "localhost:" +:+ pretty (controlPort (Ports c)) in
  grpc_Dial target e2 = (None, e3) ->
  let rpc := manager_Configure target (json_raw v) e3 in
  let st' := {| env := rpc.2; HandlingServices := HandlingServices st |} in
  configureService service st
  = after [EvInvoke (ConfigureService service);
           EvContainerList [("label", managedLabel);
                            ("name", containerName service)];
           EvKVList ("instances/" +:+ InstanceID +:+ "/services/" +:+ service);
           EvDial target;
           EvConfigure target (json_raw v)]
      match rpc.1 with
      | Some e => {| outcome := Returned (Some e); final := st'; events := [] |}
      | None => configureContainers service cs st'
      end.
Proof.
  intros Hcli Hlist Hconsul Hkv Hdec Hpath target Hdial. cbv zeta.
  unfold configureService. rewrite emit_bind, ask_bind, after_nil, Hcli.
  rewrite call_bind, Hlist. cbn [fst snd].
  rewrite ask_bind, after_nil. cbn [env]. rewrite Hconsul.
  cbn [configureContainers]. rewrite call_bind. cbn [env].
  rewrite Hkv. cbn [fst snd]. rewrite Hdec.
  unfold jsonparser_Get. rewrite Hpath. rewrite typeOf_exists.
  rewrite (bind_Returned (ret tt) _ _ tt eq_refl).
  cbn [ret events final]. rewrite after_nil.
  fold target. rewrite call_bind. cbn [env from_option]. rewrite Hdial.
  cbn [fst snd]. rewrite call_bind. cbn [env].
  destruct (manager_Configure target (json_raw v) e3) as [[cerr|] e4];
    cbn [fst snd]; rewrite !after_after; done.
Qed.

(** X13. With one listed container and a service document in the store,
    [configureService] reads the service's subtree, dials the control
    port on localhost and sends the raw service document there; when the
    call succeeds it returns nil. *)
Theorem configure_delivers_document (service : Service) (st : State Env)
    (c : Container) (e1 e2 e3 e4 : Env) (kvs : KVPairs)
    (m : Document) (v : JSON) :
  let target := "localhost:" +:+ pretty (controlPort (Ports c)) in
  docker_NewEnvClient (env st) = None ->
  docker_ContainerList [("label", managedLabel); ("name", containerName service)]
                       (env st) = (([c], None), e1) ->
  consul_NewClient e1 = None ->
  consul_KVList ("instances/" +:+ InstanceID +:+ "/services/" +:+ service) e1
  = ((kvs, None), e2) ->
  ConsulKVsToJSON kvs = (m, None) ->
  getPath (JObj m) ["instances"; InstanceID; "services"; service] = Some v ->
  grpc_Dial target e2 = (None, e3) ->
  manager_Configure target (json_raw v) e3 = (None, e4) ->
  configureService service st
  = {| outcome := Returned None;
       final := {| env := e4; HandlingServices := HandlingServices st |};
       events := [EvInvoke (ConfigureService service);
                  EvContainerList [("label", managedLabel);
                                   ("name", containerName service)];
                  EvKVList ("instances/" +:+ InstanceID +:+ "/services/"
                            +:+ service);
                  EvDial target;
                  EvConfigure target (json_raw v)] |}.
Proof.
  cbv zeta. intros Hcli Hlist Hconsul Hkv Hdec Hpath Hdial Hrpc.
  rewrite (configureService_first_run service st c [] e1 e2 e3 kvs m v
             Hcli Hlist Hconsul Hkv Hdec Hpath Hdial).
  cbv zeta. rewrite Hrpc. cbn [fst snd configureContainers].
  unfold after, ret. cbn. done.
Qed.

(** X14. A failed delivery ends [configureService] at once, wherever
    the failing container stands in the listing: once the deliveries to
    the containers before it have succeeded and its own delivery fails,
    the error is returned and the run ends with that configure call, so
    the containers listed after it get no store read, no dial and no
    configure call. *)
Theorem configure_stops_at_first_failure (service : Service) (st : State Env)
    (before : list Container) (c : Container) (later : list Container)
    (e1 e2 e3 e4 : Env) (kvs : KVPairs) (m : Document) (v : JSON) (e : error) :
  let target := "localhost:" +:+ pretty (controlPort (Ports c)) in
  docker_NewEnvClient (env st) = None ->
  docker_ContainerList [("label", managedLabel); ("name", containerName service)]
                       (env st) = ((before ++ c :: later, None), e1) ->
  consul_NewClient e1 = None ->
  let earlier :=
    configureContainers service before
      {| env := e1; HandlingServices := HandlingServices st |} in
  outcome earlier = Returned None ->
  consul_KVList ("instances/" +:+ InstanceID +:+ "/services/" +:+ service)
                (env (final earlier))
  = ((kvs, None), e2) ->
  ConsulKVsToJSON kvs = (m, None) ->
  getPath (JObj m) ["instances"; InstanceID; "services"; service] = Some v ->
  grpc_Dial target e2 = (None, e3) ->
  manager_Configure target (json_raw v) e3 = (Some e, e4) ->
  configureService service st
  = {| outcome := Returned (Some e);
       final := {| env := e4; HandlingServices := HandlingServices st |};
       events := [EvInvoke (ConfigureService service);
                  EvContainerList [("label", managedLabel);
                                   ("name", containerName service)]]
                 ++ events earlier
                 ++ [EvKVList ("instances/" +:+ InstanceID +:+ "/services/"
                               +:+ service);
                     EvDial target;
                     EvConfigure target (json_raw v)] |}.
Proof.
  intros target Hcli Hlist Hconsul earlier Hearlier Hkv Hdec Hpath Hdial Hrpc.
  unfold configureService. rewrite emit_bind, ask_bind, after_nil, Hcli.
  rewrite call_bind, Hlist. cbn [fst snd].
  rewrite ask_bind, after_nil. cbn [env]. rewrite Hconsul.
  rewrite (configureContainers_app service before (c :: later) _ Hearlier).
  fold earlier.
  destruct (configureContainers_quiet service before
              {| env := e1; HandlingServices := HandlingServices st |})
    as [_ Hflag].
  fold earlier in Hflag. cbn [HandlingServices] in Hflag.
  cbn [configureContainers]. rewrite call_bind.
  rewrite Hkv. cbn [fst snd]. rewrite Hdec.
  unfold jsonparser_Get. rewrite Hpath. rewrite typeOf_exists.
  rewrite (bind_Returned (ret tt) _ _ tt eq_refl).
  cbn [ret events final]. rewrite after_nil.
  fold target. rewrite call_bind. cbn [env from_option]. rewrite Hdial.
  cbn [fst snd]. rewrite call_bind. cbn [env]. rewrite Hrpc.
  cbn [fst snd]. rewrite Hflag. unfold after, ret.
  cbn [outcome final events HandlingServices app]. done.
Qed.

(** X15. A listed container whose service has no document in the store
    ends the process: the missing key path is a fatal error, raised
    before any dial. *)
Theorem configure_missing_document_exits (service : Service) (st : State Env)
    (c : Container) (cs : list Container) (e1 e2 : Env) (kvs : KVPairs)
    (m : Document) :
  docker_NewEnvClient (env st) = None ->
  docker_ContainerList [("label", managedLabel); ("name", containerName service)]
                       (env st) = ((c :: cs, None), e1) ->
  consul_NewClient e1 = None ->
  consul_KVList ("instances/" +:+ InstanceID +:+ "/services/" +:+ service) e1
  = ((kvs, None), e2) ->
  ConsulKVsToJSON kvs = (m, None) ->
  getPath (JObj m) ["instances"; InstanceID; "services"; service] = None ->
  configureService service st
  = {| outcome := Exited "Key path not found";
       final := {| env := e2; HandlingServices := HandlingServices st |};
       events := [EvInvoke (ConfigureService service);
                  EvContainerList [("label", managedLabel);
                                   ("name", containerName service)];
                  EvKVList ("instances/" +:+ InstanceID +:+ "/services/"
                            +:+ service);
                  EvLog "Key path not found"] |}.
Proof.
  intros Hcli Hlist Hconsul Hkv Hdec Hpath.
  unfold configureService. rewrite emit_bind, ask_bind, after_nil, Hcli.
  rewrite call_bind, Hlist. cbn [fst snd].
  rewrite ask_bind, after_nil. cbn [env]. rewrite Hconsul.
  cbn [configureContainers]. rewrite call_bind. cbn [env].
  rewrite Hkv. cbn [fst snd]. rewrite Hdec.
  unfold jsonparser_Get. rewrite Hpath. done.
Qed.

(** X16. With no container listed for the service, [configureService]
    returns nil after the listing: the store is not read and nothing is
    dialled. *)
Theorem configure_without_container (service : Service) (st : State Env)
    (e1 : Env) :
  docker_NewEnvClient (env st) = None ->
  docker_ContainerList [("label", managedLabel); ("name", containerName service)]
                       (env st) = (([], None), e1) ->
  consul_NewClient e1 = None ->
  configureService service st
  = {| outcome := Returned None;
       final := {| env := e1; HandlingServices := HandlingServices st |};
       events := [EvInvoke (ConfigureService service);
                  EvContainerList [("label", managedLabel);
                                   ("name", containerName service)]] |}.
Proof.
  intros Hcli Hlist Hconsul.
  unfold configureService. rewrite emit_bind, ask_bind, after_nil, Hcli.
  rewrite call_bind, Hlist. cbn [fst snd].
  rewrite ask_bind, after_nil. cbn [env]. rewrite Hconsul. done.
Qed.

(** The error list only grows, by at most one entry per service. *)
Lemma configureServicesFrom_errors (errorList : list error)
    (services : Services) (st : State Env) (errs : list error) :
  outcome (configureServicesFrom errorList services st) = Returned errs ->
  errorList `prefix_of` errs
  /\ length errs <= length errorList + length services.
Proof.
  revert errorList st. induction services as [|s rest IH]; intros errorList st.
  - cbn. intros [= <-]. split; [done|lia].
  - cbn [configureServicesFrom length].
    destruct (outcome (configureService s st)) as [err|e|e] eqn:Ho.
    + rewrite (bind_Returned _ _ _ _ Ho). cbn [after outcome]. intros Hret.
      apply IH in Hret as [Hp Hlen]. destruct err as [e|].
      * split; [by eapply prefix_app_l|]. rewrite length_app in Hlen. cbn in Hlen. lia.
      * split; [done|lia].
    + by rewrite (bind_Panicked _ _ _ _ Ho).
    + by rewrite (bind_Exited _ _ _ _ Ho).
Qed.

(** X17. The batch is best effort: when [configureServices] returns, it
    has invoked [configureService] for every service of its list, in
    order, whether or not earlier ones failed, and it reports at most one
    error per service. *)
Theorem configureServices_attempts_all (services : Services) (st : State Env)
    (errs : list error) :
  outcome (configureServices services st) = Returned errs ->
  configured (events (configureServices services st)) = services
  /\ length errs <= length services.
Proof.
  intros Hret. unfold configureServices in *.
  destruct (configureServicesFrom_invocations [] services st) as (_ & Hr & _).
  split.
  - unfold configured. rewrite Hr by by eexists. apply configured_configures.
  - by destruct (configureServicesFrom_errors [] services st errs Hret).
Qed.
End ConfiguratorScope.

(** ** More on the configuration handler *)

Section HandlerScope.
Context {Env : Type} `{!Runtime Env} `{!Config}.

(** A listing that does not decode: the handler logs and panics, with
    the flag set and the world untouched. *)
Lemma ConfigHandler_decode_failure (kvs : KVPairs) (m : Document) (e : error)
    (st : State Env) :
  ConsulKVsToJSON kvs = (m, Some e) ->
  ConfigHandler kvs st
  = {| outcome := Panicked e;
       final := {| env := env st; HandlingServices := true |};
       events := [EvLog e] |}.
Proof.
  intros Hdec. unfold ConfigHandler.
  rewrite (bind_Returned (set_HandlingServices true) _ st tt eq_refl).
  cbn [set_HandlingServices events final]. rewrite after_nil.
  by rewrite Hdec.
Qed.

(** The run of the handler behind the reconciliation pass, on the path
    with a services map. *)
Lemma handler_tail_run (st1 : State Env) :
  let relist := getLocalServices st1 in
  let tail :=
    (let* (localServices, err) := getLocalServices in
     match err with
     | Some e => log_Fatal e
     | None =>
         configureServices localServices ;;
         set_HandlingServices false
     end) st1 in
  (HandlingServices st1 = true ->
   (HandlingServices (final tail) = false <-> outcome tail = Returned tt))
  /\ (forall localServices errs,
         outcome relist = Returned (localServices, None) ->
         outcome (configureServices localServices (final relist)) = Returned errs ->
         outcome tail = Returned tt
         /\ final tail
            = {| env := env (final (configureServices localServices (final relist)));
                 HandlingServices := false |}).
Proof.
  cbv zeta. pose proof (getLocalServices_flag st1) as Hflag.
  destruct (outcome (getLocalServices st1)) as [[l [e|]]|e|e] eqn:Ho.
  - rewrite (bind_Returned _ _ _ _ Ho). cbn [after outcome final log_Fatal].
    split; [|intros ? ? [=]]. intros Hst1. rewrite Hflag, Hst1. split; discriminate.
  - rewrite (bind_Returned _ _ _ _ Ho). cbn [after outcome final].
    destruct (configureServicesFrom_invocations [] l (final (getLocalServices st1)))
      as (_ & _ & Hf).
    fold (configureServices l) in Hf.
    destruct (outcome (configureServices l (final (getLocalServices st1))))
      as [errs|e|e] eqn:Hob.
    + rewrite (bind_Returned _ _ _ _ Hob).
      cbn [after outcome final set_HandlingServices HandlingServices].
      split; [done|]. intros l' errs' [= <-] _. done.
    + rewrite (bind_Panicked _ _ _ _ Hob). cbn [outcome final].
      split; [|intros l' errs' [= <-] Hb; rewrite Hob in Hb; discriminate].
      intros Hst1. rewrite Hf, Hflag, Hst1. split; discriminate.
    + rewrite (bind_Exited _ _ _ _ Hob). cbn [outcome final].
      split; [|intros l' errs' [= <-] Hb; rewrite Hob in Hb; discriminate].
      intros Hst1. rewrite Hf, Hflag, Hst1. split; discriminate.
  - rewrite (bind_Panicked _ _ _ _ Ho). cbn [outcome final].
    split; [|intros ? ? [=]]. intros Hst1. rewrite Hflag, Hst1. split; discriminate.
  - rewrite (bind_Exited _ _ _ _ Ho). cbn [outcome final].
    split; [|intros ? ? [=]]. intros Hst1. rewrite Hflag, Hst1. split; discriminate.
Qed.

(** X18. After a run of the handler the flag is cleared in exactly one
    case: the listing decoded, the document holds a services map, and
    the handler returned.  On every other way out (a decoding failure,
    an absent subtree, a panic or a process exit on the way) the flag
    set on entry stays set. *)
Theorem handler_flag_cleared_iff (kvs : KVPairs) (st : State Env) :
  HandlingServices (final (ConfigHandler kvs st)) = false
  <-> (ConsulKVsToJSON kvs).2 = None
      /\ is_Some (servicesMapOf (ConsulKVsToJSON kvs).1)
      /\ outcome (ConfigHandler kvs st) = Returned tt.
Proof.
  destruct (ConsulKVsToJSON kvs) as [m [e|]] eqn:Hdec; cbn [fst snd].
  - rewrite (ConfigHandler_decode_failure kvs m e st Hdec). cbn.
    split; [discriminate|]. by intros [[=] _].
  - rewrite (ConfigHandler_run kvs m st Hdec). cbv zeta.
    rewrite servicesMapOf_getPath.
    set (st0 := {| env := env st; HandlingServices := true |}).
    destruct (getPath (JObj m) servicesPath) as [[s|servicesMap]|];
      cbn [typeAssertMap].
    + cbn. split; [discriminate|]. by intros (_ & [? [=]] & _).
    + pose proof (ensureServices_flag (map fst servicesMap) st0) as Hpf.
      destruct (outcome (ensureServices (map fst servicesMap) st0))
        as [[]|e|e] eqn:Hop.
      * rewrite (bind_Returned _ _ _ _ Hop). cbn [after outcome final].
        destruct (handler_tail_run
                    (final (ensureServices (map fst servicesMap) st0)))
          as [Hiff _].
        rewrite (Hiff Hpf). split; [by intros ->|by intros (_ & _ & ?)].
      * rewrite (bind_Panicked _ _ _ _ Hop). cbn [outcome final].
        rewrite Hpf. split; [discriminate|]. by intros (_ & _ & [=]).
      * rewrite (bind_Exited _ _ _ _ Hop). cbn [outcome final].
        rewrite Hpf. split; [discriminate|]. by intros (_ & _ & [=]).
    + rewrite ensureServices_flag. cbn.
      split; [discriminate|]. by intros (_ & [? [=]] & _).
Qed.

(** X19. The errors collected by the configure batch are dropped: when
    the pass has returned, the re-listing has succeeded and the batch
    has returned, whatever errors it reports, the handler returns
    normally with the flag cleared. *)
Theorem handler_drops_configure_errors (kvs : KVPairs) (m servicesMap : Document)
    (st : State Env) (localServices : Services) (errs : list error) :
  ConsulKVsToJSON kvs = (m, None) ->
  servicesMapOf m = Some servicesMap ->
  let st0 := {| env := env st; HandlingServices := true |} in
  let pass := ensureServices (map fst servicesMap) st0 in
  let relist := getLocalServices (final pass) in
  let batch := configureServices localServices (final relist) in
  outcome pass = Returned tt ->
  outcome relist = Returned (localServices, None) ->
  outcome batch = Returned errs ->
  outcome (ConfigHandler kvs st) = Returned tt
  /\ final (ConfigHandler kvs st)
     = {| env := env (final batch); HandlingServices := false |}.
Proof.
  intros Hdec Hsm. cbv zeta. intros Hpass Hrelist Hbatch.
  rewrite (ConfigHandler_run kvs m st Hdec). cbv zeta.
  rewrite servicesMapOf_getPath in Hsm.
  destruct (getPath (JObj m) servicesPath) as [[s|sm]|]; cbn in Hsm;
    [discriminate| |discriminate].
  injection Hsm as ->.
  rewrite (bind_Returned _ _ _ _ Hpass). cbn [after outcome final].
  destruct (handler_tail_run
              (final (ensureServices (map fst servicesMap)
                        {| env := env st; HandlingServices := true |})))
    as [_ Hret].
  exact (Hret localServices errs Hrelist Hbatch).
Qed.
End HandlerScope.

(** ** The status query *)

Section StatusScope.
Context {Env : Type} `{!Runtime Env} `{!Config}.

Lemma appendService_from (status : pb.AgentStatus) (cs : list Container) :
  foldl appendService status cs
  = {| pb.InstanceId := pb.InstanceId status;
       pb.Services := pb.Services status
                      ++ map (fun c => {| pb.Id := ID c; pb.Image := Image c |}) cs |}.
Proof.
  revert status. induction cs as [|c cs IH]; intros status; cbn [foldl map].
  - rewrite app_nil_r. by destruct status.
  - rewrite IH. unfold appendService. cbn. by rewrite <- app_assoc.
Qed.

(** X21. The status query lists without any filter: on success it
    reports this node's instance identifier and one entry (identifier
    and image) per listed container, in listing order, whether or not
    the container carries the managed label; it makes no other call. *)
Theorem status_reports_every_container (st : State Env)
    (containers : list Container) (e1 : Env) :
  docker_NewEnvClient (env st) = None ->
  docker_ContainerList [] (env st) = ((containers, None), e1) ->
  AgentGetStatus st
  = {| outcome :=
         Returned (Some {| pb.InstanceId := InstanceID;
                           pb.Services :=
                             map (fun c => {| pb.Id := ID c; pb.Image := Image c |})
                                 containers |},
                   None);
       final := {| env := e1; HandlingServices := HandlingServices st |};
       events := [EvContainerList []] |}.
Proof.
  intros Hcli Hlist. unfold AgentGetStatus.
  rewrite ask_bind, after_nil, Hcli, call_bind, Hlist. cbn [fst snd].
  by rewrite appendService_from.
Qed.

(** X22. The status query fails in two different ways: a failed client
    construction is returned to the caller with a nil status and no
    runtime call, while a failed listing is fatal and ends the process. *)
Theorem status_failures (st : State Env) (e : error) :
  (docker_NewEnvClient (env st) = Some e ->
   AgentGetStatus st
   = {| outcome := Returned (None, Some e); final := st; events := [] |})
  /\ (docker_NewEnvClient (env st) = None ->
      (docker_ContainerList [] (env st)).1.2 = Some e ->
      outcome (AgentGetStatus st) = Exited e
      /\ events (AgentGetStatus st) = [EvContainerList []; EvLog e]).
Proof.
  unfold AgentGetStatus. split.
  - intros Hcli. by rewrite ask_bind, after_nil, Hcli.
  - intros Hcli Hlist. rewrite ask_bind, after_nil, Hcli, call_bind.
    destruct (docker_ContainerList [] (env st)) as [[cs err] e1].
    cbn [fst snd] in *. subst err. done.
Qed.
End StatusScope.

(** ** The watch loop *)

Section WatchScope.
Context {Env : Type} `{!WatchStore Env} `{!Config}.

(** One poll of the watch loop whose read succeeds. *)
Lemma watch_step (fuel : nat) (prevIndex : Z) (handler : KVPairs -> M Env unit)
    (st : State Env) (kvs : KVPairs) (lastIndex : Z) (e1 : Env) :
  consul_KVListWait watchPrefix prevIndex (env st) = ((kvs, lastIndex, None), e1) ->
  watchConfigTree (S fuel) prevIndex handler st
  = after [EvKVList watchPrefix]
      (((if (prevIndex =? lastIndex)%Z then ret tt else handler kvs) ;;
        let* inner := watchConfigTree fuel lastIndex handler in
        match inner with
        | None => ret None
        | Some _ => ret (Some None)
        end)
         {| env := e1; HandlingServices := HandlingServices st |}).
Proof. intros Hlist. cbn [watchConfigTree]. by rewrite call_bind, Hlist. Qed.

(** X23. A failed first read is the only error the watch loop returns:
    it comes back at once, and the handler is not run. *)
Theorem watch_first_failure (fuel : nat) (prevIndex : Z)
    (handler : KVPairs -> M Env unit) (st : State Env)
    (kvs : KVPairs) (lastIndex : Z) (e : error) (e1 : Env) :
  consul_KVListWait watchPrefix prevIndex (env st)
  = ((kvs, lastIndex, Some e), e1) ->
  watchConfigTree (S fuel) prevIndex handler st
  = {| outcome := Returned (Some (Some e));
       final := {| env := e1; HandlingServices := HandlingServices st |};
       events := [EvKVList watchPrefix] |}.
Proof. intros Hlist. cbn [watchConfigTree]. by rewrite call_bind, Hlist. Qed.

(** X24. Once the first read has succeeded the watch loop never returns
    an error: the result of the nested call is dropped, so a read that
    fails later ends the loop with nil. *)
Theorem watch_drops_later_errors (fuel : nat) (prevIndex : Z)
    (handler : KVPairs -> M Env unit) (st : State Env)
    (res : option error) :
  (consul_KVListWait watchPrefix prevIndex (env st)).1.2 = None ->
  outcome (watchConfigTree fuel prevIndex handler st) = Returned (Some res) ->
  res = None.
Proof.
  destruct fuel as [|fuel]; [by cbn|]. intros Hok.
  destruct (consul_KVListWait watchPrefix prevIndex (env st))
    as [[[kvs lastIndex] err] e1] eqn:Hlist.
  cbn in Hok. subst err.
  rewrite (watch_step fuel prevIndex handler st kvs lastIndex e1 Hlist).
  cbn [after outcome].
  set (st1 := {| env := e1; HandlingServices := HandlingServices st |}).
  destruct (outcome ((if (prevIndex =? lastIndex)%Z then ret tt else handler kvs) st1))
    as [[]|e|e] eqn:Hoh.
  - rewrite (bind_Returned _ _ _ _ Hoh). cbn [after outcome].
    set (st2 := final _).
    destruct (outcome (watchConfigTree fuel lastIndex handler st2))
      as [[inner|]|e|e] eqn:Hin.
    + rewrite (bind_Returned _ _ _ _ Hin). cbn. congruence.
    + rewrite (bind_Returned _ _ _ _ Hin). cbn. congruence.
    + by rewrite (bind_Panicked _ _ _ _ Hin).
    + by rewrite (bind_Exited _ _ _ _ Hin).
  - by rewrite (bind_Panicked _ _ _ _ Hoh).
  - by rewrite (bind_Exited _ _ _ _ Hoh).
Qed.

(** X25. While the store answers with the index that was waited for,
    the handler is never run: the loop only polls, once per round. *)
Theorem watch_unchanged_index_only_polls (prevIndex : Z)
    (handler : KVPairs -> M Env unit) :
  (forall e : Env,
      (consul_KVListWait watchPrefix prevIndex e).1.2 = None
      /\ (consul_KVListWait watchPrefix prevIndex e).1.1.2 = prevIndex) ->
  forall (fuel : nat) (st : State Env),
    outcome (watchConfigTree fuel prevIndex handler st) = Returned None
    /\ events (watchConfigTree fuel prevIndex handler st)
       = replicate fuel (EvKVList watchPrefix)
    /\ HandlingServices (final (watchConfigTree fuel prevIndex handler st))
       = HandlingServices st.
Proof.
  intros Hrest fuel. induction fuel as [|fuel IH]; intros st; [done|].
  destruct (Hrest (env st)) as [Hok Hidx].
  destruct (consul_KVListWait watchPrefix prevIndex (env st))
    as [[[kvs lastIndex] err] e1] eqn:Hlist.
  cbn in Hok, Hidx. subst err lastIndex.
  rewrite (watch_step fuel prevIndex handler st kvs prevIndex e1 Hlist).
  rewrite Z.eqb_refl.
  rewrite (bind_Returned (ret tt) _ _ tt eq_refl). cbn [ret events final].
  rewrite after_nil.
  destruct (IH {| env := e1; HandlingServices := HandlingServices st |})
    as (Ho & He & Hf).
  rewrite (bind_Returned _ _ _ _ Ho). cbn [after outcome events final ret].
  rewrite He, Hf, app_nil_r. done.
Qed.

(** X26. An answer with a new index runs the handler on the answered
    pairs before anything else; when the handler returns, the next poll
    waits on the new index, and when the handler panics the loop panics
    with it and polls no more. *)
Theorem watch_changed_index_runs_handler (fuel : nat) (prevIndex : Z)
    (handler : KVPairs -> M Env unit) (st : State Env)
    (kvs : KVPairs) (lastIndex : Z) (e1 : Env) :
  consul_KVListWait watchPrefix prevIndex (env st) = ((kvs, lastIndex, None), e1) ->
  lastIndex <> prevIndex ->
  let st1 := {| env := e1; HandlingServices := HandlingServices st |} in
  (outcome (handler kvs st1) = Returned tt ->
   events (watchConfigTree (S fuel) prevIndex handler st)
   = [EvKVList watchPrefix] ++ events (handler kvs st1)
     ++ events (watchConfigTree fuel lastIndex handler (final (handler kvs st1))))
  /\ (forall e, outcome (handler kvs st1) = Panicked e ->
                outcome (watchConfigTree (S fuel) prevIndex handler st) = Panicked e
                /\ events (watchConfigTree (S fuel) prevIndex handler st)
                   = [EvKVList watchPrefix] ++ events (handler kvs st1)).
Proof.
  intros Hlist Hne. cbv zeta.
  rewrite (watch_step fuel prevIndex handler st kvs lastIndex e1 Hlist).
  rewrite (proj2 (Z.eqb_neq prevIndex lastIndex)) by congruence.
  set (st1 := {| env := e1; HandlingServices := HandlingServices st |}).
  split.
  - intros Hret. rewrite (bind_Returned _ _ _ _ Hret).
    cbn [after events]. do 2 f_equal.
    destruct (outcome (watchConfigTree fuel lastIndex handler (final (handler kvs st1))))
      as [[inner|]|e|e] eqn:Hin.
    + rewrite (bind_Returned _ _ _ _ Hin). cbn. by rewrite app_nil_r.
    + rewrite (bind_Returned _ _ _ _ Hin). cbn. by rewrite app_nil_r.
    + by rewrite (bind_Panicked _ _ _ _ Hin).
    + by rewrite (bind_Exited _ _ _ _ Hin).
  - intros e Hpanic. by rewrite (bind_Panicked _ _ _ _ Hpanic).
Qed.

(** X27. With a store whose reads never fail the watch loop does not
    return: whatever the number of polls allowed, it is still running
    when they are used up, unless the handler has ended the process. *)
Theorem watch_never_returns (handler : KVPairs -> M Env unit) :
  (forall (index : Z) (e : Env),
      (consul_KVListWait watchPrefix index e).1.2 = None) ->
  forall (fuel : nat) (prevIndex : Z) (st : State Env) (res : option error),
    outcome (watchConfigTree fuel prevIndex handler st) <> Returned (Some res).
Proof.
  intros Hok fuel. induction fuel as [|fuel IH]; intros prevIndex st res; [by cbn|].
  pose proof (Hok prevIndex (env st)) as Hfirst.
  destruct (consul_KVListWait watchPrefix prevIndex (env st))
    as [[[kvs lastIndex] err] e1] eqn:Hlist.
  cbn in Hfirst. subst err.
  rewrite (watch_step fuel prevIndex handler st kvs lastIndex e1 Hlist).
  cbn [after outcome].
  set (st1 := {| env := e1; HandlingServices := HandlingServices st |}).
  destruct (outcome ((if (prevIndex =? lastIndex)%Z then ret tt else handler kvs) st1))
    as [[]|e|e] eqn:Hoh.
  - rewrite (bind_Returned _ _ _ _ Hoh). cbn [after outcome].
    set (st2 := final _).
    pose proof (IH lastIndex st2) as Hinner.
    destruct (outcome (watchConfigTree fuel lastIndex handler st2))
      as [[inner|]|e|e] eqn:Hin.
    + by destruct (Hinner inner).
    + by rewrite (bind_Returned _ _ _ _ Hin).
    + by rewrite (bind_Panicked _ _ _ _ Hin).
    + by rewrite (bind_Exited _ _ _ _ Hin).
  - by rewrite (bind_Panicked _ _ _ _ Hoh).
  - by rewrite (bind_Exited _ _ _ _ Hoh).
Qed.

(** The bound on the number of polls does not matter to a run that
    returns: with a larger bound the run is the same. *)
Lemma watch_fuel_enough (fuel : nat) (prevIndex : Z)
    (handler : KVPairs -> M Env unit) (st : State Env) (res : option error) :
  outcome (watchConfigTree fuel prevIndex handler st) = Returned (Some res) ->
  forall extra : nat,
    watchConfigTree (fuel + extra) prevIndex handler st
    = watchConfigTree fuel prevIndex handler st.
Proof.
  revert prevIndex st res.
  induction fuel as [|fuel IH]; intros prevIndex st res; [by cbn|].
  intros Hret extra. cbn [Nat.add].
  destruct (consul_KVListWait watchPrefix prevIndex (env st))
    as [[[kvs lastIndex] [e|]] e1] eqn:Hlist.
  - by rewrite !(watch_first_failure _ prevIndex handler st kvs lastIndex e e1 Hlist).
  - rewrite (watch_step fuel prevIndex handler st kvs lastIndex e1 Hlist) in Hret.
    rewrite !(watch_step _ prevIndex handler st kvs lastIndex e1 Hlist).
    f_equal. cbn [after outcome] in Hret.
    set (st1 := {| env := e1; HandlingServices := HandlingServices st |}) in *.
    destruct (outcome ((if (prevIndex =? lastIndex)%Z then ret tt else handler kvs) st1))
      as [[]|e|e] eqn:Hoh.
    + rewrite (bind_Returned _ _ _ _ Hoh) in Hret.
      rewrite !(bind_Returned _ _ _ _ Hoh). f_equal.
      cbn [after outcome] in Hret.
      set (st2 := final _) in *.
      destruct (outcome (watchConfigTree fuel lastIndex handler st2))
        as [[inner|]|e|e] eqn:Hin.
      * unfold bind. by rewrite (IH lastIndex st2 inner Hin extra).
      * rewrite (bind_Returned _ _ _ _ Hin) in Hret. by cbn in Hret.
      * by rewrite (bind_Panicked _ _ _ _ Hin) in Hret.
      * by rewrite (bind_Exited _ _ _ _ Hin) in Hret.
    + by rewrite (bind_Panicked _ _ _ _ Hoh) in Hret.
    + by rewrite (bind_Exited _ _ _ _ Hoh) in Hret.
Qed.
End WatchScope.

(** ** Further scenarios *)

Section FurtherScenarios.
Import Sim.
#[local] Existing Instance Faulty.runtime.
#[local] Existing Instance Faulty.watch.
#[local] Existing Instance Resting.watch.

(** DB runs and LB is desired: LB is started and DB is stopped. *)
Lemma reconcile_disjoint_converges_witness :
  let st := idle (node [managed "DB" controlPorts] wantsLB) in
  invocations (events (ensureServices ["LB"] st))
  = [StartService "LB"; StopService "DB"]
  /\ started (events (ensureServices ["LB"] st)) = ["LB"]
  /\ stopped (events (ensureServices ["LB"] st)) = ["DB"].
Proof.
  cbv zeta.
  apply (reconcile_disjoint_converges ["LB"] ["DB"]
           (idle (node [managed "DB" controlPorts] wantsLB)));
    [by vm_compute | | by vm_compute].
  intros s Hs Hd. apply list_elem_of_singleton in Hs, Hd. congruence.
Defined.

(** LB and DB run, LB and a cache are desired: LB heads both lists. *)
Lemma reconcile_first_match_blocks_witness :
  let st := idle (node [managed "LB" controlPorts; managed "DB" controlPorts]
                       wantsLB) in
  started (events (ensureServices ["LB"; "cache"] st)) = []
  /\ stopped (events (ensureServices ["LB"; "cache"] st)) = [].
Proof.
  cbv zeta.
  destruct (reconcile_first_match_blocks ["LB"; "cache"] ["LB"; "DB"]
              (idle (node [managed "LB" controlPorts; managed "DB" controlPorts]
                          wantsLB)))
    as [Hstart Hstop]; [by vm_compute|].
  split.
  - apply (Hstart "LB" ["cache"]); [done|left].
  - apply (Hstop "LB" ["DB"]); [done|left].
Defined.

(** A node whose runtime client cannot be built, and one that cannot
    list. *)
Lemma reconcile_without_listing_panics_witness :
  let down := Faulty.at_rest (Faulty.broken "client" "cannot connect" (node [] [])) in
  let deaf := Faulty.at_rest (Faulty.broken "list" "daemon timeout" (node [] [])) in
  (outcome (ensureServices ["LB"] down) = Panicked ("cannot connect" +:+ newline)
   /\ events (ensureServices ["LB"] down) = [EvLog "cannot connect"])
  /\ (outcome (ensureServices ["LB"] deaf) = Panicked "daemon timeout"
      /\ events (ensureServices ["LB"] deaf)
         = [EvContainerList [("label", managedLabel)]; EvLog "daemon timeout"]
      /\ invocations (events (ensureServices ["LB"] deaf)) = []
      /\ creations (events (ensureServices ["LB"] deaf)) = []).
Proof.
  cbv zeta. split.
  - destruct (reconcile_without_listing_panics ["LB"]
                (Faulty.at_rest (Faulty.broken "client" "cannot connect" (node [] [])))
                "cannot connect") as [Hdown _].
    rewrite Hdown; [done|by vm_compute].
  - destruct (reconcile_without_listing_panics ["LB"]
                (Faulty.at_rest (Faulty.broken "list" "daemon timeout" (node [] [])))
                "daemon timeout") as [_ Hdeaf].
    apply Hdeaf; by vm_compute.
Defined.

(** Two names outside the registry on an empty node. *)
Lemma reconcile_logs_failed_starts_witness :
  let st := idle (node [] []) in
  outcome (ensureServices ["DB"; "cache"] st) = Returned tt
  /\ started (events (ensureServices ["DB"; "cache"] st)) = ["DB"; "cache"].
Proof.
  cbv zeta.
  rewrite (reconcile_logs_failed_starts ["DB"; "cache"] (idle (node [] [])));
    [by vm_compute | by vm_compute | by vm_compute |].
  intros s Hs.
  apply elem_of_cons in Hs as [->|Hs]; [discriminate|].
  apply list_elem_of_singleton in Hs as ->. discriminate.
Defined.

(** LB started on an empty node. *)
Lemma startService_success_trace_witness :
  let st := idle (node [] wantsLB) in
  outcome (startService "LB" st) = Returned None
  /\ EvContainerStart "id-com.opencopilot.service-manager.LB"
     ∈ events (startService "LB" st).
Proof.
  cbv zeta.
  erewrite (startService_success_trace (idle (node [] wantsLB)));
    [| by vm_compute ..].
  split; [done|]. cbn. do 5 right. left.
Defined.

(** A registry that refuses the pull. *)
Lemma startService_pull_failure_witness :
  let st := Faulty.at_rest (Faulty.broken "pull" "pull access denied" (node [] [])) in
  outcome (startService "LB" st) = Returned (Some "pull access denied")
  /\ creations (events (startService "LB" st)) = [].
Proof.
  cbv zeta.
  erewrite (startService_pull_failure
              (Faulty.at_rest (Faulty.broken "pull" "pull access denied" (node [] []))));
    [| by vm_compute ..].
  done.
Defined.

(** A pull stream that breaks while it is read. *)
Lemma startService_read_failure_panics_witness :
  let st := Faulty.at_rest (Faulty.broken "read" "unexpected EOF" (node [] [])) in
  outcome (startService "LB" st) = Panicked "unexpected EOF"
  /\ creations (events (startService "LB" st)) = [].
Proof.
  cbv zeta.
  edestruct (startService_read_failure_panics
               (Faulty.at_rest (Faulty.broken "read" "unexpected EOF" (node [] []))))
    as (Ho & Hc & _); [by vm_compute ..|].
  split; [exact Ho|exact Hc].
Defined.

(** A runtime that refuses to create the container. *)
Lemma startService_create_or_start_failure_witness :
  let st := Faulty.at_rest (Faulty.broken "create" "no space left" (node [] [])) in
  outcome (startService "LB" st) = Returned (Some "no space left")
  /\ forall id', EvContainerStart id' ∉ events (startService "LB" st).
Proof.
  cbv zeta.
  eapply (startService_create_or_start_failure
            (Faulty.at_rest (Faulty.broken "create" "no space left" (node [] [])))
            "" (Some "no space left"));
    by vm_compute.
Defined.

(** A runtime that cannot list, and one whose client cannot be built. *)
Lemma stopService_failures_witness :
  let down := Faulty.at_rest (Faulty.broken "client" "cannot connect"
                                (node [managed "LB" controlPorts] [])) in
  let deaf := Faulty.at_rest (Faulty.broken "list" "daemon timeout"
                                (node [managed "LB" controlPorts] [])) in
  outcome (stopService "LB" down) = Returned (Some "cannot connect")
  /\ outcome (stopService "LB" deaf) = Exited "daemon timeout"
  /\ forall id, EvContainerStop id ∉ events (stopService "LB" deaf).
Proof.
  cbv zeta. split.
  - destruct (stopService_failures "LB"
                (Faulty.at_rest (Faulty.broken "client" "cannot connect"
                                   (node [managed "LB" controlPorts] [])))
                "cannot connect") as [Hdown _].
    rewrite Hdown; [done|by vm_compute].
  - destruct (stopService_failures "LB"
                (Faulty.at_rest (Faulty.broken "list" "daemon timeout"
                                   (node [managed "LB" controlPorts] [])))
                "daemon timeout") as [_ Hdeaf].
    apply Hdeaf; by vm_compute.
Defined.

(** Two LB containers around a managed container without service
    label. *)
Lemma getLocalServices_reports_labels_witness :
  let st := idle (node [managed "LB" controlPorts; unlabelled "sidecar";
                        managed "LB" []] []) in
  outcome (getLocalServices st) = Returned (["LB"; "LB"], None).
Proof.
  cbv zeta.
  edestruct (getLocalServices_reports_labels
               (idle (node [managed "LB" controlPorts; unlabelled "sidecar";
                            managed "LB" []] []))
               [managed "LB" controlPorts; unlabelled "sidecar"; managed "LB" []])
    as (Ho & _ & _); [by vm_compute ..|].
  rewrite Ho. by vm_compute.
Defined.

(** A control port published twice, before another port. *)
Lemma controlPort_last_mapping_witness :
  controlPort ([{| PrivatePort := 50052; PublicPort := 32768 |}]
               ++ {| PrivatePort := 50052; PublicPort := 32769 |}
               :: [{| PrivatePort := 80; PublicPort := 8080 |}])
  = 32769%Z.
Proof.
  apply (controlPort_last_mapping
           [{| PrivatePort := 50052; PublicPort := 32768 |}]
           [{| PrivatePort := 80; PublicPort := 8080 |}]
           {| PrivatePort := 50052; PublicPort := 32769 |}); [done|].
  intros q Hq. apply list_elem_of_singleton in Hq as ->. cbn. lia.
Defined.

(** LB runs with its control port published. *)
Lemma configure_delivers_document_witness :
  let st := idle (node [managed "LB" controlPorts] wantsLB) in
  outcome (configureService "LB" st) = Returned None
  /\ EvConfigure "localhost:32768" (json_raw configLB)
     ∈ events (configureService "LB" st).
Proof.
  cbv zeta.
  erewrite (configure_delivers_document "LB"
              (idle (node [managed "LB" controlPorts] wantsLB))
              (managed "LB" controlPorts) _ _ _ _ wantsLB _ configLB);
    [| by vm_compute ..].
  split; [done|]. cbn. do 4 right. left.
Defined.

(** Three containers match the name filter of LB; the second one
    publishes no port, and the third one is never reached. *)
Lemma configure_stops_at_first_failure_witness :
  let st := idle (node [managed "LB" controlPorts; managed "LB2" [];
                        managed "LB3" controlPorts] wantsLB) in
  outcome (configureService "LB" st) = Returned (Some "connection refused")
  /\ events (configureService "LB" st)
     = [EvInvoke (ConfigureService "LB");
        EvContainerList [("label", managedLabel); ("name", containerName "LB")];
        EvKVList "instances/node-1/services/LB";
        EvDial "localhost:32768";
        EvConfigure "localhost:32768" (json_raw configLB);
        EvKVList "instances/node-1/services/LB";
        EvDial "localhost:0";
        EvConfigure "localhost:0" (json_raw configLB)].
Proof.
  cbv zeta.
  pose (n := node [managed "LB" controlPorts; managed "LB2" [];
                   managed "LB3" controlPorts] wantsLB).
  pose (e2 := env (final (configureContainers "LB" [managed "LB" controlPorts]
                            (idle n)))).
  rewrite (configure_stops_at_first_failure "LB" (idle n)
             [managed "LB" controlPorts] (managed "LB2" [])
             [managed "LB3" controlPorts]
             n e2 e2 e2 wantsLB (ConsulKVsToJSON (Runtime := runtime) wantsLB).1
             configLB "connection refused");
    [| by vm_compute ..].
  split; [done|]. by vm_compute.
Defined.

(** LB runs and the store holds nothing for it. *)
Lemma configure_missing_document_exits_witness :
  let st := idle (node [managed "LB" controlPorts] []) in
  outcome (configureService "LB" st) = Exited "Key path not found".
Proof.
  cbv zeta.
  erewrite (configure_missing_document_exits "LB"
              (idle (node [managed "LB" controlPorts] []))
              (managed "LB" controlPorts) [] _ _ [] []);
    [| by vm_compute ..].
  done.
Defined.

(** No LB container on the node. *)
Lemma configure_without_container_witness :
  let st := idle (node [] wantsLB) in
  outcome (configureService "LB" st) = Returned None
  /\ events (configureService "LB" st)
     = [EvInvoke (ConfigureService "LB");
        EvContainerList [("label", managedLabel); ("name", containerName "LB")]].
Proof.
  cbv zeta.
  erewrite (configure_without_container "LB" (idle (node [] wantsLB)));
    [| by vm_compute ..].
  done.
Defined.

(** LB publishes no port and fails; DB is configured all the same. *)
Lemma configureServices_attempts_all_witness :
  let st := idle (node [managed "LB" []; managed "DB" controlPorts]
                       (wantsLB ++ [("instances/node-1/services/DB/size", "1")])) in
  outcome (configureServices ["LB"; "DB"] st) = Returned ["connection refused"]
  /\ configured (events (configureServices ["LB"; "DB"] st)) = ["LB"; "DB"].
Proof.
  cbv zeta. split; [by vm_compute|].
  apply (configureServices_attempts_all ["LB"; "DB"]
           (idle (node [managed "LB" []; managed "DB" controlPorts]
                       (wantsLB ++ [("instances/node-1/services/DB/size", "1")])))
           ["connection refused"]).
  by vm_compute.
Defined.

(** LB is desired and runs without a published port: its configuration
    fails and the handler returns as if nothing had happened. *)
Lemma handler_drops_configure_errors_witness :
  let st := idle (node [managed "LB" []] wantsLB) in
  outcome (configureServices ["LB"] st) = Returned ["connection refused"]
  /\ outcome (ConfigHandler wantsLB st) = Returned tt
  /\ HandlingServices (final (ConfigHandler wantsLB st)) = false.
Proof.
  cbv zeta. split; [by vm_compute|].
  edestruct (handler_drops_configure_errors wantsLB
               (ConsulKVsToJSON (Runtime := runtime) wantsLB).1
               [("LB", configLB)]
               (idle (node [managed "LB" []] wantsLB))
               ["LB"] ["connection refused"])
    as [Ho Hf]; [by vm_compute ..|].
  split; [exact Ho|]. by rewrite Hf.
Defined.

(** A node that runs LB and a foreign container. *)
Lemma status_reports_every_container_witness :
  let st := idle (node [managed "LB" controlPorts; foreign "db"] []) in
  outcome (AgentGetStatus st)
  = Returned
      (Some {| pb.InstanceId := "node-1";
               pb.Services :=
                 [{| pb.Id := "id-com.opencopilot.service-manager.LB";
                     pb.Image := "quay.io/opencopilot/haproxy-manager" |};
                  {| pb.Id := "id-db"; pb.Image := "busybox" |}] |},
       None).
Proof.
  cbv zeta.
  erewrite (status_reports_every_container
              (idle (node [managed "LB" controlPorts; foreign "db"] []))
              [managed "LB" controlPorts; foreign "db"]);
    [| by vm_compute ..].
  by vm_compute.
Defined.

(** A runtime that cannot list, and one whose client cannot be built. *)
Lemma status_failures_witness :
  let down := Faulty.at_rest (Faulty.broken "client" "cannot connect" (node [] [])) in
  let deaf := Faulty.at_rest (Faulty.broken "list" "daemon timeout" (node [] [])) in
  outcome (AgentGetStatus down) = Returned (None, Some "cannot connect")
  /\ outcome (AgentGetStatus deaf) = Exited "daemon timeout".
Proof.
  cbv zeta. split.
  - destruct (status_failures
                (Faulty.at_rest (Faulty.broken "client" "cannot connect" (node [] [])))
                "cannot connect") as [Hdown _].
    rewrite Hdown; [done|by vm_compute].
  - destruct (status_failures
                (Faulty.at_rest (Faulty.broken "list" "daemon timeout" (node [] [])))
                "daemon timeout") as [_ Hdeaf].
    apply Hdeaf; by vm_compute.
Defined.

(** A store that cannot be reached at the first read. *)
Lemma watch_first_failure_witness :
  let st := Faulty.at_rest (Faulty.scripted (node [] []) []) in
  outcome (watchConfigTree 3 0 ConfigHandler st)
  = Returned (Some (Some "store unreachable"))
  /\ events (watchConfigTree 3 0 ConfigHandler st) = [EvKVList watchPrefix].
Proof.
  cbv zeta.
  erewrite (watch_first_failure 2 0 ConfigHandler
              (Faulty.at_rest (Faulty.scripted (node [] []) [])));
    [| by vm_compute].
  done.
Defined.

(** A store that answers once and is unreachable afterwards: the second
    read fails and the loop returns nil. *)
Lemma watch_drops_later_errors_witness :
  let st := Faulty.at_rest
              (Faulty.scripted (node [] []) [((wantsLB, 7%Z), None)]) in
  exists res,
    outcome (watchConfigTree 2 0 ConfigHandler st) = Returned (Some res)
    /\ res = None.
Proof.
  cbv zeta. exists None. split; [by vm_compute|].
  apply (watch_drops_later_errors 2 0 ConfigHandler
           (Faulty.at_rest
              (Faulty.scripted (node [] []) [((wantsLB, 7%Z), None)])));
    by vm_compute.
Defined.

(** A store at rest, polled three times. *)
Lemma watch_unchanged_index_only_polls_witness :
  let st := idle (node [managed "LB" controlPorts] wantsLB) in
  outcome (watchConfigTree 3 5 ConfigHandler st) = Returned None
  /\ events (watchConfigTree 3 5 ConfigHandler st)
     = replicate 3 (EvKVList watchPrefix)
  /\ HandlingServices (final (watchConfigTree 3 5 ConfigHandler st))
     = HandlingServices st.
Proof.
  cbv zeta.
  apply (watch_unchanged_index_only_polls (Env := Node) 5 ConfigHandler).
  intros e. split; reflexivity.
Defined.

(** A first answer with index 7 to a loop that waits on index 0. *)
Lemma watch_changed_index_runs_handler_witness :
  let st := Faulty.at_rest
              (Faulty.scripted (node [] []) [((wantsLB, 7%Z), None)]) in
  [EvKVList watchPrefix; EvContainerList [("label", managedLabel)];
   EvInvoke (StartService "LB")]
    `prefix_of` events (watchConfigTree 1 0 ConfigHandler st).
Proof.
  cbv zeta.
  edestruct (watch_changed_index_runs_handler 0 0 ConfigHandler
               (Faulty.at_rest
                  (Faulty.scripted (node [] []) [((wantsLB, 7%Z), None)]))
               wantsLB 7)
    as [Hret _]; [by vm_compute | done |].
  rewrite Hret; [|by vm_compute].
  vm_compute. by eexists.
Defined.

(** A store at rest never lets the loop return. *)
Lemma watch_never_returns_witness :
  let st := idle (node [managed "LB" controlPorts] wantsLB) in
  outcome (watchConfigTree 4 0 ConfigHandler st) <> Returned (Some None).
Proof.
  cbv zeta.
  apply (watch_never_returns (Env := Node) ConfigHandler).
  intros index e. reflexivity.
Defined.
End FurtherScenarios.
